(** * endee / rag_project: a shallow embedding of the RAG pipeline

    The development follows the Python sources of [rag_project]:

    - [ingestion/ingest.py]   : [split_into_chunks] and the payload loop of [main];
    - [retrieval/search.py]   : [load_metadata] and [retrieve_chunks];
    - [rag_pipeline.py]       : [build_context], [build_prompt],
                                [placeholder_llm] and [run_rag];
    - [app.py]                : the [ask] endpoint.

    Python [str] values are modelled by [string]: texts over the code points
    below 256, with the whitespace [str.isspace] finds among them.
    Exceptions and the observable side effects of the code (printing,
    calls to the decoder and to the generator) are kept explicit. *)

From stdpp Require Import base list strings gmap pretty.
From Stdlib Require Import Ascii String.
From Equations Require Import Equations.

Set Default Proof Using "Type".
Local Open Scope string_scope.
Local Open Scope list_scope.
Local Open Scope nat_scope.

(** ** Python string primitives *)

Module PyStr.

(** [str.isspace] on one character, for the code points below 256: TAB, LF,
    VT, FF, CR, the four separators FS, GS, RS, US, the blank, NEL and the
    no-break space. The regular expression class [\s] of [re] accepts the same
    characters on [str] patterns. *)
Definition isspace (c : ascii) : bool :=
  match c with
  | "009" | "010" | "011" | "012" | "013"
  | "028" | "029" | "030" | "031" | " "
  | "133" | "160" => true
  | _ => false
  end%char.

(** [s.lstrip()] *)
Fixpoint lstrip (s : string) : string :=
  match s with
  | "" => ""
  | String c s' => if isspace c then lstrip s' else s
  end.

(** [s.rstrip()] *)
Fixpoint rstrip (s : string) : string :=
  match s with
  | "" => ""
  | String c s' =>
      match rstrip s' with
      | "" => if isspace c then "" else String c ""
      | r => String c r
      end
  end.

(** [s.strip()] *)
Definition strip (s : string) : string := rstrip (lstrip s).

(** [s.startswith(p)] *)
Fixpoint startswith (p s : string) : bool :=
  match p, s with
  | "", _ => true
  | String a p', String b s' => if Ascii.eqb a b then startswith p' s' else false
  | String _ _, "" => false
  end.

(** [s.endswith(p)]: [p] is the suffix of [s] that starts at some position. *)
Fixpoint endswith (p s : string) : bool :=
  match s with
  | "" => String.eqb p ""
  | String _ s' => String.eqb p s || endswith p s'
  end.

(** [s[n:]] *)
Fixpoint drop (n : nat) (s : string) : string :=
  match n, s with
  | 0, _ => s
  | S _, "" => ""
  | S n', String _ s' => drop n' s'
  end.

(** [s[:n]] *)
Fixpoint take (n : nat) (s : string) : string :=
  match n, s with
  | 0, _ => ""
  | S _, "" => ""
  | S n', String c s' => String c (take n' s')
  end.

(** [s.partition(sep)] when [sep] occurs in [s]: the text before the first
    occurrence and the text after it; [None] when there is none. *)
Fixpoint partition (sep s : string) : option (string * string) :=
  if startswith sep s then Some ("", drop (String.length sep) s)
  else match s with
       | "" => None
       | String c s' =>
           match partition sep s' with
           | Some (a, b) => Some (String c a, b)
           | None => None
           end
       end.

(** [sub in s] *)
Definition contains (sub s : string) : bool :=
  match partition sub s with Some _ => true | None => false end.

(** [s.split(sep, 1)]: at most one split, at the first occurrence. *)
Definition split1 (sep s : string) : list string :=
  match partition sep s with
  | Some (a, b) => [a; b]
  | None => [s]
  end.

(** [s.replace(old, new, 1)]: only the first occurrence is replaced. *)
Definition replace1 (old new s : string) : string :=
  match partition old s with
  | Some (a, b) => a +:+ new +:+ b
  | None => s
  end.

(** [s.split(sep)] for a non-empty [sep]. Every split consumes at least one
    character, so [String.length s] rounds are enough. *)
Fixpoint split_rounds (n : nat) (sep s : string) : list string :=
  match n with
  | 0 => [s]
  | S n' =>
      match partition sep s with
      | Some (a, b) => a :: split_rounds n' sep b
      | None => [s]
      end
  end.

Definition split (sep s : string) : list string :=
  split_rounds (String.length s) sep s.

(** [sep.join(l)] *)
Fixpoint join (sep : string) (l : list string) : string :=
  match l with
  | [] => ""
  | [x] => x
  | x :: l' => x +:+ sep +:+ join sep l'
  end.

End PyStr.

(** ** Chunker: [ingestion/ingest.py] *)

Module Ingest.
Import PyStr.

(** The character class [[.!?]] of the look-behind. *)
Definition is_terminator (c : ascii) : bool :=
  match c with
  | "." | "!" | "?" => true
  | _ => false
  end%char.

(** [re.compile(r"(?<=[.!?])\s+").split(text)].

    A match of the pattern starts at a whitespace character that directly
    follows a terminator and, [\s+] being greedy, runs to the end of that
    whitespace run; [split] cuts the text at every such match, scanning from
    left to right. The scanner below is in one of two states: inside a piece
    (remembering whether the previous character was a terminator) or inside
    a match. It returns the piece under construction and the pieces that
    follow it. *)
Inductive scan_state :=
| InPiece (after_terminator : bool)
| InMatch.

Fixpoint re_split_go (st : scan_state) (s : string) : string * list string :=
  match s with
  | "" => ("", [])
  | String c s' =>
      match st with
      | InMatch =>
          if isspace c then re_split_go InMatch s'
          else let '(p, ps) := re_split_go (InPiece (is_terminator c)) s' in
               (String c p, ps)
      | InPiece after =>
          if after && isspace c
          then let '(p, ps) := re_split_go InMatch s' in ("", p :: ps)
          else let '(p, ps) := re_split_go (InPiece (is_terminator c)) s' in
               (String c p, ps)
      end
  end.

Definition sentence_end_split (text : string) : list string :=
  let '(p, ps) := re_split_go (InPiece false) text in p :: ps.

(** Python truthiness of a [str]. *)
Definition truthy (s : string) : bool :=
  match s with "" => false | _ => true end.

(** [[s.strip() for s in sentence_end.split(text) if s.strip()]] *)
Definition sentences_of (text : string) : list string :=
  omap (λ s, if truthy (strip s) then Some (strip s) else None)
       (sentence_end_split text).

(** The list slice [l[a : b]]; it never raises, out-of-range bounds are
    clipped. *)
Definition slice {A} (l : list A) (a b : nat) : list A :=
  List.firstn (b - a) (List.skipn a l).

(** The [while i < len(sentences)] loop, with its two variables [i] and
    [chunks]. *)
Equations? chunk_loop (sentences : list string) (i : nat) (chunks : list string)
  : list string by wf (List.length sentences - i) lt :=
  chunk_loop sentences i chunks with decide (i < List.length sentences) => {
    | left _ => chunk_loop sentences (i + 3) (chunks ++ [join " " (slice sentences i (i + 3))]);
    | right _ => chunks }.
Proof. lia. Qed.

Definition split_into_chunks (text : string) : list string :=
  chunk_loop (sentences_of text) 0 [].

(** *** Sentence boundaries, as the specification words them *)

(** A terminator directly followed by whitespace occurs in [s]. *)
Fixpoint has_boundary (s : string) : bool :=
  match s with
  | "" => false
  | String c s' =>
      match s' with
      | String d _ => is_terminator c && isspace d
      | "" => false
      end || has_boundary s'
  end.

(** The last character of [s] is a terminator. *)
Fixpoint ends_with_terminator (s : string) : bool :=
  match s with
  | "" => false
  | String c "" => is_terminator c
  | String _ s' => ends_with_terminator s'
  end.

(** [s] consists of whitespace only. *)
Fixpoint all_space (s : string) : bool :=
  match s with
  | "" => true
  | String c s' => isspace c && all_space s'
  end.

(** The text made of the piece [p] followed by separators and pieces in
    turn. *)
Fixpoint weave (p : string) (rest : list (string * string)) : string :=
  match rest with
  | [] => p
  | (sep, q) :: rest' => p +:+ sep +:+ weave q rest'
  end.

(** Every piece of [p :: ps] but the last ends with a terminator. *)
Fixpoint end_at_terminators (p : string) (ps : list string) : Prop :=
  match ps with
  | [] => True
  | q :: qs => ends_with_terminator p = true ∧ end_at_terminators q qs
  end.

(** Every sentence of [l] but the last ends with a terminator. *)
Definition all_but_last_end (l : list string) : Prop :=
  match l with
  | [] => True
  | p :: ps => end_at_terminators p ps
  end.

(** The same between the piece the scanner is building in state [st] and the
    pieces that follow it: right after a terminator the piece may still be
    empty. *)
Definition junction (st : scan_state) (p : string) (ps : list string) : Prop :=
  match ps with
  | [] => True
  | q :: qs =>
      ((p = "" ∧ st = InPiece true) ∨ ends_with_terminator p = true)
      ∧ end_at_terminators q qs
  end.

(** What a kept sentence looks like: not empty, trimmed, no boundary
    inside. *)
Definition sentence_like (s : string) : Prop :=
  s ≠ "" ∧ strip s = s ∧ has_boundary s = false.

(** [pieces] is [text] cut at its sentence boundaries: the text is the pieces
    with runs of whitespace between them, every cut follows a terminator, no
    boundary is left inside a piece, and a piece after a cut does not begin
    with whitespace. *)
Definition cut_at_boundaries (text : string) (pieces : list string) : Prop :=
  ∃ p ps seps,
    pieces = p :: ps
    ∧ List.length seps = List.length ps
    ∧ text = weave p (zip seps ps)
    ∧ Forall (λ sep, sep ≠ "" ∧ all_space sep = true) seps
    ∧ end_at_terminators p ps
    ∧ Forall (λ q, has_boundary q = false) pieces
    ∧ Forall (λ q, lstrip q = q) ps.

End Ingest.

(** ** Exceptions, results and observable effects *)

(** The classes of the exceptions the pipeline raises itself, and a class for
    those that come out of the libraries it calls (requests, msgpack, json,
    sentence_transformers). All of them derive from [Exception]. *)
Inductive exn_class :=
| RuntimeError
| FileNotFoundError
| IndexError
| TypeError
| LibraryError.

(** An exception with its message, [str(e)]. *)
Record exn := Exn { exn_cls : exn_class; exn_msg : string }.

(** The result of evaluating an expression that may raise. *)
Inductive outcome (A : Type) :=
| Return (a : A)
| Raise (e : exn).
Arguments Return {A} a.
Arguments Raise {A} e.

#[global] Instance outcome_ret : MRet outcome := λ A a, Return a.
#[global] Instance outcome_bind : MBind outcome := λ A B f m,
  match m with
  | Return a => f a
  | Raise e => Raise e
  end.

(** Python [bytes]: a sequence of 8-bit characters. *)
Abbreviation bytes := string (only parsing).

(** What a run does besides returning: lines written to standard output, and
    the calls to the MessagePack decoder and to the answer generator. *)
Inductive event :=
| Printed (line : string)
| Unpacked (content : bytes)
| Generated (prompt : string).

(** A computation with a trace of events and a result. *)
Definition run (A : Type) : Type := list event * outcome A.

#[global] Instance run_ret : MRet run := λ A a, ([], Return a).
#[global] Instance run_bind : MBind run := λ A B f m,
  match m with
  | (t, Return a) => let '(t', r) := f a in (t ++ t', r)
  | (t, Raise e) => (t, Raise e)
  end.

Definition lift {A} (o : outcome A) : run A := ([], o).
Definition emit (e : event) : run unit := ([e], Return tt).
Definition print (line : string) : run unit := emit (Printed line).
Definition raise {A} (c : exn_class) (msg : string) : run A :=
  ([], Raise (Exn c msg)).

(** [l[i]] on a list: [IndexError] out of range. *)
Definition getitem {A} (l : list A) (i : nat) : outcome A :=
  match l !! i with
  | Some x => Return x
  | None => Raise (Exn IndexError "list index out of range")
  end.

(** The two characters that cannot be written inside a literal. *)
Definition nl : string := String "010"%char "".
Definition dquote : string := String "034"%char "".

(** ** Retriever: [retrieval/search.py] *)

Module Search.
Import PyStr.

(** A key of a decoded MessagePack map: [unpackb] is called with its default
    [strict_map_key], which accepts [str] and [bytes] keys only. *)
Inductive map_key :=
| KStr (s : string)
| KBin (b : bytes).

(** A value decoded by [msgpack.unpackb(..., raw=False)]. Floats are kept as
    their IEEE-754 bit pattern; a map keeps its entries in wire order. *)
#[warning="-register-all"]
Inductive value :=
| VNil
| VBool (b : bool)
| VInt (z : Z)
| VFloat (bits : Z)
| VStr (s : string)
| VBin (b : bytes)
| VList (l : list value)
| VMap (entries : list (map_key * value)).

(** An embedding, [model.encode(...).tolist()]. *)
Definition vector : Type := list Z.

(** The content of [chunk_metadata.json]: chunk id to record, a record being
    a dict from field name to text. *)
Abbreviation metadata_map := (gmap string (gmap string string)).

(** What [requests.post] returns, as far as the code looks at it:
    [status_code], [headers.get("Content-Type")], [text] and [content]. *)
Record response := Response {
  status_code : Z;
  content_type_header : option string;
  text : string;
  content : bytes
}.

(** Everything outside the program that one call depends on. *)
Record world := World {
  (** [SentenceTransformer(MODEL_NAME)] followed by [model.encode(query)] *)
  encode : string → outcome vector;
  (** [requests.post(SEARCH_URL, json={"vector": v, "k": TOP_K}, ...)] *)
  post : vector → outcome response;
  (** [msgpack.unpackb(content, raw=False)] *)
  unpackb : bytes → outcome value;
  (** [METADATA_PATH] as text *)
  metadata_path : string;
  (** the metadata file: absent, or what reading and [json.loads] give *)
  metadata_file : option (outcome metadata_map);
  (** [str(v)] for a [v] that is not a [str] *)
  py_str : value → string
}.

(** [load_metadata()] *)
Definition load_metadata (w : world) : run metadata_map :=
  match metadata_file w with
  | None => raise FileNotFoundError ("Metadata not found: " +:+ metadata_path w)
  | Some r => lift r
  end.

Definition key_is (k : map_key) (name : string) : bool :=
  match k with
  | KStr s => String.eqb s name
  | KBin _ => false
  end.

(** [d.get(name, default)] on the dict built from the entries of a map:
    a later entry with the same key replaces an earlier one. *)
Fixpoint dict_get (entries : list (map_key * value)) (name : string)
    (default : value) : value :=
  match entries with
  | [] => default
  | (k, v) :: rest => dict_get rest name (if key_is k name then v else default)
  end.

Definition key_eqb (k1 k2 : map_key) : bool :=
  match k1, k2 with
  | KStr a, KStr b => String.eqb a b
  | KBin a, KBin b => String.eqb a b
  | _, _ => false
  end.

Definition key_value (k : map_key) : value :=
  match k with
  | KStr s => VStr s
  | KBin b => VBin b
  end.

(** The keys of that dict, in insertion order. *)
Fixpoint dict_keys (seen : list map_key) (entries : list (map_key * value))
    : list map_key :=
  match entries with
  | [] => []
  | (k, _) :: rest =>
      if existsb (key_eqb k) seen then dict_keys seen rest
      else k :: dict_keys (k :: seen) rest
  end.

(** [for item in results]: the items a value yields when iterated, or the
    [TypeError] of a value that is not iterable. *)
Definition iterate (results : value) : outcome (list value) :=
  match results with
  | VList l => Return l
  | VMap entries => Return (key_value <$> dict_keys [] entries)
  | VStr s => Return ((λ c, VStr (String c "")) <$> list_ascii_of_string s)
  | VBin b => Return ((λ c, VInt (Z.of_N (N_of_ascii c))) <$> list_ascii_of_string b)
  | VNil => Raise (Exn TypeError "'NoneType' object is not iterable")
  | VBool _ => Raise (Exn TypeError "'bool' object is not iterable")
  | VInt _ => Raise (Exn TypeError "'int' object is not iterable")
  | VFloat _ => Raise (Exn TypeError "'float' object is not iterable")
  end.

(** The guard of the loop,
    [isinstance(item, (list, tuple)) and len(item) != 0]; among the values of
    [value] the lists are the only ones that are a list or a tuple. *)
Definition passes_guard (item : value) : bool :=
  match item with
  | VList [] => false
  | VList (_ :: _) => true
  | _ => false
  end.

(** [item[1]] for an item that passed the guard. *)
Definition item_id (item : value) : outcome value :=
  match item with
  | VList elems => getitem elems 1
  | _ => Raise (Exn TypeError "object is not subscriptable")
  end.

(** [chunk_id in metadata and "text" in metadata[chunk_id]], and then
    [metadata[chunk_id]["text"]]: the text when both tests hold. Looking a
    list or a dict up in a dict raises, other values that are not [str] are
    simply not keys of a JSON object. *)
Definition lookup_text (metadata : metadata_map) (chunk_id : value)
    : outcome (option string) :=
  match chunk_id with
  | VStr s =>
      match metadata !! s with
      | Some rec => Return (rec !! "text")
      | None => Return None
      end
  | VList _ => Raise (Exn TypeError "unhashable type: 'list'")
  | VMap _ => Raise (Exn TypeError "unhashable type: 'dict'")
  | _ => Return None
  end.

(** [f"{chunk_id}"] *)
Definition format (w : world) (chunk_id : value) : string :=
  match chunk_id with
  | VStr s => s
  | v => py_str w v
  end.

(** [f"[No text for id: {chunk_id}]"] *)
Definition no_text (w : world) (chunk_id : value) : string :=
  "[No text for id: " +:+ format w chunk_id +:+ "]".

(** Step 5, the loop [for item in results: ...] over the items, with its
    variable [chunks]. *)
Fixpoint map_items (w : world) (metadata : metadata_map) (items : list value)
    (chunks : list string) : outcome (list string) :=
  match items with
  | [] => Return chunks
  | item :: rest =>
      if negb (passes_guard item) then map_items w metadata rest chunks
      else
        chunk_id ← item_id item;
        found ← lookup_text metadata chunk_id;
        match found with
        | Some t => map_items w metadata rest (chunks ++ [t])
        | None => map_items w metadata rest (chunks ++ [no_text w chunk_id])
        end
  end.

(** Step 3, after decoding: which part of the payload holds the results. *)
Definition results_of (payload : value) : value :=
  match payload with
  | VList l => VList l
  | VMap entries => dict_get entries "results" (dict_get entries "dense" (VList []))
  | _ => VList []
  end.

(** [retrieve_chunks(query)] *)
Definition retrieve_chunks (w : world) (query : string) : run (list string) :=
  query_vector ← lift (encode w query);
  response ← lift (post w query_vector);
  if bool_decide (status_code response ≠ 200%Z)
  then raise RuntimeError ("Search failed: " +:+ text response)
  else
    let content_type := default "" (content_type_header response) in
    if negb (contains "application/msgpack" content_type)
    then
      print "DEBUG: Non-msgpack response from Endee";;
      print (take 300 (text response));;
      mret []
    else
      emit (Unpacked (content response));;
      payload ← lift (unpackb w (content response));
      let results := results_of payload in
      metadata ← load_metadata w;
      items ← lift (iterate results);
      lift (map_items w metadata items []).

(** The chunk id of a well-formed hit [[score, id, ...]] with a [str] id. *)
Definition hit_id (item : value) : option string :=
  match item with
  | VList (_ :: VStr s :: _) => Some s
  | _ => None
  end.

(** The entry the specification gives for a chunk id: its text when the
    metadata has one, the sentinel otherwise. *)
Definition entry_for (metadata : metadata_map) (chunk_id : string) : string :=
  match metadata !! chunk_id ≫= (λ rec : gmap string string, rec !! "text") with
  | Some t => t
  | None => "[No text for id: " +:+ chunk_id +:+ "]"
  end.

(** [str(v)] for [None], booleans and integers. The worlds of the examples
    below render no value of another kind. *)
Definition str_of_scalar (v : value) : string :=
  match v with
  | VNil => "None"
  | VBool true => "True"
  | VBool false => "False"
  | VInt z => pretty z
  | VStr s => s
  | _ => ""
  end.

(** A world for the examples: the encoder and the request succeed, with the
    given response, decoder result and metadata file. *)
Definition example_world (resp : response) (decoded : outcome value)
    (file : option (outcome metadata_map)) : world :=
  {| encode := λ _, Return [0%Z; 0%Z; 0%Z];
     post := λ _, Return resp;
     unpackb := λ _, decoded;
     metadata_path := "rag_project/data/chunk_metadata.json";
     metadata_file := file;
     py_str := str_of_scalar |}.

(** A successful MessagePack response with the given content. *)
Definition msgpack_response (content : bytes) : response :=
  Response 200 (Some "application/msgpack") "" content.

End Search.

(** ** Answer composer: [rag_pipeline.py] *)

Module Pipeline.
Import PyStr.

(** The literal markers of the prompt template. *)
Definition CONTEXT_MARK : string := Eval cbv in "Context:" +:+ nl.
Definition QUESTION_MARK : string := Eval cbv in nl +:+ nl +:+ "Question:" +:+ nl.
Definition ANSWER_MARK : string := Eval cbv in nl +:+ nl +:+ "Answer:".

Definition NO_CONTEXT : string := "No relevant context was found for your question.".
Definition FALLBACK : string := "I could not generate an answer from the given prompt.".

(** [build_context(chunks)] *)
Definition build_context (chunks : list string) : string :=
  strip (join (nl +:+ nl) chunks).

(** [build_prompt(context, question)] *)
Definition build_prompt (context question : string) : string :=
  CONTEXT_MARK +:+ context +:+ QUESTION_MARK +:+ question +:+ ANSWER_MARK.

(** The two blocks the generator reads back out of a prompt. *)
Definition parse_prompt (prompt : string) : outcome (string * string) :=
  let parts := split1 QUESTION_MARK prompt in
  p0 ← getitem parts 0;
  let context_block := strip (replace1 CONTEXT_MARK "" p0) in
  p1 ← getitem parts 1;
  let question_block := strip (replace1 ANSWER_MARK "" p1) in
  mret (context_block, question_block).

(** [context_block.split(". ")[0].strip()], with a period appended when the
    result does not end with one. *)
Definition first_sentence_of (context_block : string) : outcome string :=
  s ← getitem (split ". " context_block) 0;
  let first_sentence := strip s in
  mret (if negb (endswith "." first_sentence)
        then first_sentence +:+ "."
        else first_sentence).

(** The answer sentence. *)
Definition answer_of (first_sentence question_block : string) : string :=
  "Based on the context: " +:+ first_sentence +:+ " In answer to " +:+ dquote
    +:+ question_block +:+ dquote
    +:+ ": The relevant information is in the context above.".

(** [placeholder_llm(prompt)] *)
Definition placeholder_llm (prompt : string) : outcome string :=
  if contains CONTEXT_MARK prompt && contains QUESTION_MARK prompt
  then
    '(context_block, question_block) ← parse_prompt prompt;
    first_sentence ← first_sentence_of context_block;
    mret (answer_of first_sentence question_block)
  else mret FALLBACK.

(** The first sentence as the specification words it: the text up to the
    first occurrence of [sep], or all of the text when there is none ... *)
Definition before_first (sep s : string) : string :=
  match partition sep s with
  | Some (a, _) => a
  | None => s
  end.

(** ... with a period appended if absent. *)
Definition with_period (s : string) : string :=
  if endswith "." s then s else s +:+ ".".

(** The call [placeholder_llm(prompt)] as [run_rag] makes it. *)
Definition generate (prompt : string) : run string :=
  emit (Generated prompt);; lift (placeholder_llm prompt).

(** Steps 2 to 5 of [run_rag], from the retrieved chunks on. *)
Definition compose (chunks : list string) (question : string) : run string :=
  match chunks with
  | [] => mret NO_CONTEXT
  | _ :: _ =>
      let context := build_context chunks in
      let prompt := build_prompt context question in
      answer ← generate prompt;
      mret answer
  end.

(** [run_rag(question)] *)
Definition run_rag (w : Search.world) (question : string) : run string :=
  chunks ← Search.retrieve_chunks w question;
  compose chunks question.

(** The document of the end-to-end scenario and its first sentence. *)
Definition PARIS : string :=
  "Paris is the capital of France. It is known for the Eiffel Tower.".
Definition PARIS_FIRST : string := "Paris is the capital of France.".

End Pipeline.

(** ** Endpoint: [app.py] *)

Module App.

(** The JSON object [ask] returns. *)
Inductive body :=
| Answer (question answer : string)
| Error (error note : string).

Definition NOTE : string :=
  "Error occurred inside RAG pipeline (retrieval / Endee search).".

(** [ask(question)]: [try: ... except Exception as e: ...]. Every exception
    of [exn] is an [Exception], so the handler takes them all. *)
Definition ask (w : Search.world) (question : string) : run body :=
  match Pipeline.run_rag w question with
  | (t, Return answer) => (t, Return (Answer question answer))
  | (t, Raise e) => (t, Return (Error (exn_msg e) NOTE))
  end.

End App.

(** ** Ingestion payload: [main] of [ingestion/ingest.py], step 4 *)

Module Payload.

(** One element of the insert request, [{"id": ..., "vector": ...}]. *)
Record entry := Entry { id : string; vector : Search.vector }.

(** [f"chunk_{i}"] *)
Definition chunk_id_of (i : nat) : string := "chunk_" +:+ pretty i.

(** The loop [for i, (chunk, emb) in enumerate(zip(chunks, embeddings))], with
    its variables [vectors] and [metadata]; [i] is the counter of
    [enumerate]. *)
Fixpoint payload_loop (i : nat) (pairs : list (string * Search.vector))
    (vectors : list entry) (metadata : Search.metadata_map)
    : list entry * Search.metadata_map :=
  match pairs with
  | [] => (vectors, metadata)
  | (chunk, emb) :: rest =>
      let chunk_id := chunk_id_of i in
      payload_loop (S i) rest
        (vectors ++ [Entry chunk_id emb])
        (<[chunk_id := {["text" := chunk]}]> metadata)
  end.

Definition build_payload (chunks : list string) (embeddings : list Search.vector)
    : list entry * Search.metadata_map :=
  payload_loop 0 (zip chunks embeddings) [] ∅.

End Payload.

(** ** Concrete runs *)

Module Scenario.
Import Search.

(** The bytes of a payload, given by their codes. *)
Definition of_codes (codes : list nat) : bytes :=
  string_of_list_ascii (ascii_of_nat <$> codes).

(** 0.9 and 0.8 as doubles. *)
Definition f09 : Z := 0x3FECCCCCCCCCCCCD.
Definition f08 : Z := 0x3FE999999999999A.

Definition example_metadata : metadata_map := {["chunk_0" := {["text" := "A."]}]}.

(** [[0.9, "chunk_0"], [0.8, "chunk_7"]]: two hits, the second one without
    metadata. *)
Definition two_hits : list value :=
  [VList [VFloat f09; VStr "chunk_0"]; VList [VFloat f08; VStr "chunk_7"]].
Definition two_hits_bytes : bytes :=
  of_codes [146; 146; 203; 63; 236; 204; 204; 204; 204; 204; 205;
            167; 99; 104; 117; 110; 107; 95; 48;
            146; 203; 63; 233; 153; 153; 153; 153; 153; 154;
            167; 99; 104; 117; 110; 107; 95; 55].
Definition two_hits_world : world :=
  example_world (msgpack_response two_hits_bytes) (Return (VList two_hits))
    (Some (Return example_metadata)).

(** [[{"id": "chunk_0", "score": 0.9}]]: one hit, sent as a map. *)
Definition map_hit : list value :=
  [VMap [(KStr "id", VStr "chunk_0"); (KStr "score", VFloat f09)]].
Definition map_hit_bytes : bytes :=
  of_codes [145; 130; 162; 105; 100; 167; 99; 104; 117; 110; 107; 95; 48;
            165; 115; 99; 111; 114; 101; 203; 63; 236; 204; 204; 204; 204; 204; 205].
Definition map_hit_world : world :=
  example_world (msgpack_response map_hit_bytes) (Return (VList map_hit))
    (Some (Return example_metadata)).

(** [[[0.9]]]: one item with a score and nothing else. *)
Definition score_only : list value := [VList [VFloat f09]].
Definition score_only_bytes : bytes :=
  of_codes [145; 145; 203; 63; 236; 204; 204; 204; 204; 204; 205].
Definition score_only_world : world :=
  example_world (msgpack_response score_only_bytes) (Return (VList score_only))
    (Some (Return example_metadata)).

(** [[[0.9, "chunk_0"]]] against a metadata file whose text is empty. *)
Definition one_hit : list value := [VList [VFloat f09; VStr "chunk_0"]].
Definition one_hit_bytes : bytes :=
  of_codes [145; 146; 203; 63; 236; 204; 204; 204; 204; 204; 205;
            167; 99; 104; 117; 110; 107; 95; 48].
Definition empty_text_world : world :=
  example_world (msgpack_response one_hit_bytes) (Return (VList one_hit))
    (Some (Return {["chunk_0" := {["text" := ""]}]})).

(** The server answers 200 with a web page. *)
Definition html_response : response :=
  Response 200 (Some "text/html; charset=utf-8") "<!doctype html><title>Endee</title>" "".
Definition html_world : world :=
  example_world html_response (Raise (Exn LibraryError "unpack failed")) None.

(** The server answers 500 with a plain-text message. *)
Definition failure_response : response :=
  Response 500 (Some "text/plain") "index not found" "".
Definition failure_world : world :=
  example_world failure_response (Raise (Exn LibraryError "unpack failed")) None.

(** A question with a blank after it. *)
Definition padded_question : string := "What is Paris known for? ".

(** A context that ends with the first eleven characters of the question
    marker. *)
Definition straddling_context : string :=
  Eval cbv in "Heading" +:+ nl +:+ nl +:+ "Question:".

End Scenario.

(** ** The rest of [retrieval/search.py]: [get_query] and [main] *)

Module SearchMain.
Import PyStr Search.

(** The command line and the terminal: [sys.argv], and [input(prompt)],
    which returns the line read or raises (end of input). *)
Record console := Console {
  argv : list string;
  input : string → outcome string
}.

(** [get_query()] *)
Definition get_query (c : console) : outcome string :=
  if bool_decide (1 < List.length (argv c))
  then Return (strip (join " " (List.skipn 1 (argv c))))
  else line ← input c "Query: "; mret (strip line).

(** The loop [for i, text in enumerate(chunks, 1)] of [main]. *)
Fixpoint print_chunks (i : nat) (chunks : list string) : run unit :=
  match chunks with
  | [] => mret tt
  | text :: rest =>
      print ("--- Chunk " +:+ pretty i +:+ " ---");;
      print text;;
      print "";;
      print_chunks (S i) rest
  end.

(** [main()]: the [try] covers the call of [retrieve_chunks] only. *)
Definition main (c : console) (w : world) : run unit :=
  query ← lift (get_query c);
  if negb (Ingest.truthy query)
  then print "Error: empty query."
  else
    match retrieve_chunks w query with
    | (t, Raise e) => (t, Return tt);; print ("Error: " +:+ exn_msg e)
    | (t, Return chunks) =>
        (t, Return tt);;
        print_chunks 1 chunks;;
        print ("Returned " +:+ pretty (List.length chunks) +:+ " chunk(s).")
    end.

(** The item of a list payload the index sends for a hit: [[score, id]]. *)
Definition hit (score : Z) (chunk_id : string) : value :=
  VList [VFloat score; VStr chunk_id].

(** An item the mapping loop gets through: one the guard skips, or one whose
    element at index 1 exists and can be looked up in a dict. *)
Definition mappable (item : value) : bool :=
  match item with
  | VList [_] => false
  | VList (_ :: VList _ :: _) => false
  | VList (_ :: VMap _ :: _) => false
  | _ => true
  end.

(** The entry of the result an item gives: none for an item the guard skips,
    the text or the sentinel for the others. *)
Definition entry_of (w : world) (metadata : metadata_map) (item : value)
    : option string :=
  match item with
  | VList (_ :: VStr s :: _) => Some (entry_for metadata s)
  | VList (_ :: v :: _) => Some ("[No text for id: " +:+ py_str w v +:+ "]")
  | _ => None
  end.

(** The value of the last entry of a map with the [str] key [name]. *)
Definition last_value (entries : list (map_key * value)) (name : string)
    : option value :=
  snd <$> last (List.filter (λ kv, key_is kv.1 name) entries).

End SearchMain.

(** ** The rest of [rag_pipeline.py]: [main] *)

Module PipelineMain.
Import PyStr Search Pipeline.

(** [main()] *)
Definition main (c : SearchMain.console) (w : world) : run unit :=
  question ←
    (if bool_decide (1 < List.length (SearchMain.argv c))
     then mret (strip (join " " (List.skipn 1 (SearchMain.argv c))))
     else line ← lift (SearchMain.input c "Question: "); mret (strip line));
  if negb (Ingest.truthy question)
  then print "Error: empty question."
  else
    match run_rag w question with
    | (t, Return answer) => (t, Return tt);; print answer
    | (t, Raise e) => (t, Return tt);; print ("Error: " +:+ exn_msg e)
    end.

End PipelineMain.

(** ** The rest of [ingestion/ingest.py]: [main] *)

Module IngestMain.
Import PyStr Search Payload.

(** What an ingestion run does: lines printed, the metadata file written,
    the insert request sent. *)
Inductive effect :=
| Said (line : string)
| Saved (metadata : metadata_map)
| Sent (vectors : list entry).

Definition job (A : Type) : Type := list effect * outcome A.

#[global] Instance job_ret : MRet job := λ A a, ([], Return a).
#[global] Instance job_bind : MBind job := λ A B f m,
  match m with
  | (t, Return a) => let '(t', r) := f a in (t ++ t', r)
  | (t, Raise e) => (t, Raise e)
  end.

Definition say (line : string) : job unit := ([Said line], Return tt).
Definition attempt {A} (e : effect) (o : outcome A) : job A := ([e], o).
Definition pure_step {A} (o : outcome A) : job A := ([], o).

(** Everything outside the program that one ingestion run depends on. *)
Record site := Site {
  (** [SAMPLE_DOCS] and [METADATA_PATH] as text *)
  sample_docs_path : string;
  metadata_file_path : string;
  (** the document: absent, or what [read_text] gives *)
  sample_docs : option (outcome string);
  (** [SentenceTransformer(MODEL_NAME)] followed by [model.encode(chunks)] *)
  encode_batch : list string → outcome (list Search.vector);
  (** [DATA_DIR.mkdir(...)] and [METADATA_PATH.write_text(json.dumps(...))] *)
  write_metadata : metadata_map → outcome unit;
  (** [requests.post(INSERT_URL, json=vectors, ...)] *)
  post_insert : list entry → outcome response
}.

Definition MODEL_NAME : string := "all-MiniLM-L6-v2".
Definition INDEX_NAME : string := "rag_index".

(** [main()] *)
Definition main (s : site) : job unit :=
  match sample_docs s with
  | None => say ("Missing file: " +:+ sample_docs_path s)
  | Some read =>
      raw ← pure_step read;
      let text := strip raw in
      if negb (Ingest.truthy text)
      then say "sample_docs.txt is empty"
      else
        let chunks := Ingest.split_into_chunks text in
        say ("Split into " +:+ pretty (List.length chunks) +:+ " chunk(s).");;
        say ("Loading model '" +:+ MODEL_NAME +:+ "'...");;
        embeddings ← pure_step (encode_batch s chunks);
        let '(vectors, metadata) := build_payload chunks embeddings in
        attempt (Saved metadata) (write_metadata s metadata);;
        say ("Saved chunk metadata to " +:+ metadata_file_path s);;
        say ("Sending " +:+ pretty (List.length vectors)
             +:+ " vectors to Endee (JSON)...");;
        response ← attempt (Sent vectors) (post_insert s vectors);
        if bool_decide (status_code response = 200%Z)
        then say ("Success: Inserted " +:+ pretty (List.length vectors)
                  +:+ " vectors into '" +:+ INDEX_NAME +:+ "'.")
        else say ("Insert failed (" +:+ pretty (status_code response) +:+ "): "
                  +:+ Search.text response)
  end.

(** The text without its whitespace characters. *)
Fixpoint nonspace (s : string) : string :=
  match s with
  | "" => ""
  | String c s' => if isspace c then nonspace s' else String c (nonspace s')
  end.

(** The same for a list of texts, one after the other. *)
Definition nonspace_all (l : list string) : string :=
  foldr (λ s acc, nonspace s +:+ acc) "" l.

End IngestMain.

(** ** More concrete runs *)

Module Scenario2.
Import Search SearchMain IngestMain Scenario.

(** A console with the query on the command line, and one without. *)
Definition EOF_ERROR : exn := Exn LibraryError "EOF when reading a line".
Definition argv_console : console :=
  Console ["search.py"; "What"; "is"; "Paris?"] (λ _, Raise EOF_ERROR).
Definition closed_console : console :=
  Console ["search.py"] (λ _, Raise EOF_ERROR).

(** The decoder rejects the payload. *)
Definition garbled_world : world :=
  example_world (msgpack_response "garbled")
    (Raise (Exn LibraryError "Unpack failed")) (Some (Return example_metadata)).

(** No hit, and no metadata file. *)
Definition no_file_world : world :=
  example_world (msgpack_response (of_codes [144])) (Return (VList [])) None.

(** No hit, and a metadata file. *)
Definition no_hit_world : world :=
  example_world (msgpack_response (of_codes [144])) (Return (VList []))
    (Some (Return example_metadata)).

(** The document of the end-to-end scenario, served by a site whose index
    answers with the given status. *)
Definition paris_site (status : Z) : site :=
  {| sample_docs_path := "rag_project/data/sample_docs.txt";
     metadata_file_path := "rag_project/data/chunk_metadata.json";
     sample_docs := Some (Return Pipeline.PARIS);
     encode_batch := λ chunks, Return ((λ _, [0%Z; 0%Z; 0%Z]) <$> chunks);
     write_metadata := λ _, Return tt;
     post_insert := λ _,
       Return (Response status (Some "text/plain") "index missing" "") |}.

(** No document at all. *)
Definition empty_site : site :=
  {| sample_docs_path := "rag_project/data/sample_docs.txt";
     metadata_file_path := "rag_project/data/chunk_metadata.json";
     sample_docs := None;
     encode_batch := λ chunks, Return [];
     write_metadata := λ _, Return tt;
     post_insert := λ _, Raise (Exn LibraryError "connection refused") |}.

(** The metadata an ingestion of two chunks writes, and an index that answers
    with the second chunk before the first. *)
Definition two_chunks : list string := ["A."; "B."].
Definition two_embeddings : list Search.vector := [[1%Z]; [2%Z]].
Definition ranked : list (Z * nat) := [(f09, 1); (f08, 0)].
Definition ranked_world : world :=
  example_world (msgpack_response "")
    (Return (VList ((λ h, hit h.1 (Payload.chunk_id_of h.2)) <$> ranked)))
    (Some (Return (Payload.build_payload two_chunks two_embeddings).2)).

End Scenario2.

(** * Facts *)

(** ** Strings *)

Section string_facts.
Import PyStr.

Lemma app_String c s t : String c s +:+ t = String c (s +:+ t).
Proof. reflexivity. Qed.

Lemma app_empty_l t : "" +:+ t = t.
Proof. reflexivity. Qed.

Lemma app_empty_r s : s +:+ "" = s.
Proof. induction s as [|c s IH]; [done|]. by rewrite app_String, IH. Qed.

Lemma app_assoc_str s t u : s +:+ (t +:+ u) = (s +:+ t) +:+ u.
Proof. induction s as [|c s IH]; [done|]. by rewrite !app_String, IH. Qed.

Lemma length_app_str s t : String.length (s +:+ t) = String.length s + String.length t.
Proof. induction s as [|c s IH]; [done|]. rewrite app_String. simpl. by rewrite IH. Qed.

Lemma startswith_app p s : startswith p (p +:+ s) = true.
Proof.
  induction p as [|c p IH]; [done|].
  rewrite app_String. simpl. by rewrite Ascii.eqb_refl.
Qed.

Lemma startswith_inv p s : startswith p s = true → ∃ t, s = p +:+ t.
Proof.
  revert s. induction p as [|c p IH]; intros s H.
  - by exists s.
  - destruct s as [|d s]; [done|]. simpl in H.
    destruct (Ascii.eqb_spec c d) as [->|]; [|done].
    destruct (IH _ H) as [t ->]. by exists t.
Qed.

Lemma startswith_long p s t :
  String.length p ≤ String.length s → startswith p (s +:+ t) = startswith p s.
Proof.
  revert s. induction p as [|c p IH]; intros s Hlen; [by destruct s|].
  destruct s as [|d s]; [simpl in Hlen; lia|].
  rewrite app_String. simpl. destruct (Ascii.eqb c d); [|done].
  apply IH. simpl in Hlen. lia.
Qed.

Lemma drop_app_length p s : drop (String.length p) (p +:+ s) = s.
Proof. induction p as [|c p IH]; [by destruct s|]. by rewrite app_String. Qed.

Lemma take_drop_str n s : take n s +:+ drop n s = s.
Proof.
  revert s. induction n as [|n IH]; intros [|c s]; try done.
  simpl. by rewrite app_String, IH.
Qed.

Lemma length_take_str n s : n ≤ String.length s → String.length (take n s) = n.
Proof.
  revert s. induction n as [|n IH]; intros [|c s] Hn; simpl in *; try lia.
  rewrite IH; lia.
Qed.

Lemma partition_unfold sep s :
  partition sep s =
    if startswith sep s then Some ("", drop (String.length sep) s)
    else match s with
         | "" => None
         | String c s' =>
             match partition sep s' with
             | Some (a, b) => Some (String c a, b)
             | None => None
             end
         end.
Proof. by destruct s. Qed.

Lemma partition_sound sep s a b :
  partition sep s = Some (a, b) → s = a +:+ sep +:+ b.
Proof.
  revert a b. induction s as [|c s IH]; intros a b.
  - destruct sep; [|done]. by intros [= <- <-].
  - cbn [partition]. destruct (startswith sep (String c s)) eqn:Hs.
    + intros [= <- <-]. apply startswith_inv in Hs as [t Ht].
      rewrite Ht at 2. by rewrite drop_app_length.
    + destruct (partition sep s) as [[a' b']|]; [|done].
      intros [= <- <-]. rewrite app_String. f_equal. by apply IH.
Qed.

Lemma partition_None sep s a b : partition sep s = None → s ≠ a +:+ sep +:+ b.
Proof.
  revert a. induction s as [|c s IH]; intros a.
  - destruct sep; [done|]. intros _ Heq. by destruct a.
  - cbn [partition]. destruct (startswith sep (String c s)) eqn:Hs; [done|].
    destruct (partition sep s) as [[a' b']|] eqn:Hp; [done|]. intros _ Heq.
    destruct a as [|d a].
    + rewrite app_empty_l in Heq. rewrite Heq, startswith_app in Hs. done.
    + rewrite app_String in Heq. injection Heq as -> Heq. by eapply IH.
Qed.

Lemma partition_shorter sep s a b :
  sep ≠ "" → partition sep s = Some (a, b) → String.length b < String.length s.
Proof.
  intros Hsep ->%partition_sound. rewrite !length_app_str.
  destruct sep; [done|]. cbn. lia.
Qed.

(** The rounds [split] allows are enough: more rounds give the same pieces. *)
Lemma split_rounds_enough sep s n :
  sep ≠ "" → String.length s ≤ n →
  split_rounds n sep s = split sep s.
Proof.
  intros Hsep. unfold split. revert s.
  induction n as [n IH] using lt_wf_ind. intros s Hlen.
  destruct n as [|n].
  { by replace (String.length s) with 0 by lia. }
  destruct (String.length s) as [|m] eqn:Hs.
  { destruct s; [|done]. cbn. by destruct sep. }
  cbn [split_rounds].
  destruct (partition sep s) as [[a b]|] eqn:Hp; [|done].
  apply partition_shorter in Hp; [|done]. f_equal.
  rewrite (IH n), (IH m); [done|lia..].
Qed.

(** [contains] decides the substring relation. *)
Lemma contains_spec sub s :
  contains sub s = true ↔ ∃ a b, s = a +:+ sub +:+ b.
Proof.
  unfold contains. split.
  - destruct (partition sub s) as [[a b]|] eqn:Hp; [|done].
    intros _. exists a, b. by apply partition_sound.
  - intros (a & b & ->). destruct (partition sub _) eqn:Hp; [done|].
    by eapply partition_None in Hp.
Qed.

Lemma contains_false_suffix sub a r :
  contains sub (a +:+ r) = false → startswith sub r = false.
Proof.
  intros Hc. destruct (startswith sub r) eqn:Hs; [|done].
  apply startswith_inv in Hs as [t ->].
  assert (contains sub (a +:+ sub +:+ t) = true) as Ht by (apply contains_spec; eauto).
  congruence.
Qed.

(** The first occurrence of [sep] in [a ++ sep ++ b] is the one written out
    when [sep] does not occur in [a] followed by all but the last character
    of [sep]. *)
Lemma partition_first sep a b :
  sep ≠ "" →
  contains sep (a +:+ take (String.length sep - 1) sep) = false →
  partition sep (a +:+ sep +:+ b) = Some (a, b).
Proof.
  intros Hsep. induction a as [|c a IH]; intros Hc.
  - rewrite app_empty_l, partition_unfold, startswith_app.
    by rewrite drop_app_length.
  - rewrite app_String. cbn [partition].
    assert (startswith sep (String c (a +:+ sep +:+ b)) = false) as ->.
    { rewrite <- app_String.
      rewrite <- (take_drop_str (String.length sep - 1) sep) at 2.
      rewrite <- (app_assoc_str (take _ _)), (app_assoc_str (String c a)).
      rewrite startswith_long.
      - apply (contains_false_suffix _ ""). by rewrite app_empty_l.
      - rewrite length_app_str. simpl.
        assert (String.length (take (String.length sep - 1) sep) = String.length sep - 1).
        { apply length_take_str. lia. }
        lia. }
    rewrite IH; [done|].
    unfold contains in *. rewrite app_String in Hc. cbn [partition] in Hc.
    destruct (startswith sep _); [done|].
    by destruct (partition sep (a +:+ _)) as [[??]|].
Qed.

Lemma contains_cons sub c s :
  contains sub (String c s) = startswith sub (String c s) || contains sub s.
Proof.
  unfold contains. cbn [partition].
  destruct (startswith sub (String c s)); [done|].
  by destruct (partition sub s) as [[??]|].
Qed.

Lemma rstrip_idemp s : rstrip (rstrip s) = rstrip s.
Proof.
  induction s as [|c s IH]; [done|]. simpl.
  destruct (rstrip s) as [|d r] eqn:Hr.
  - destruct (isspace c) eqn:Hc; [done|]. simpl. by rewrite Hc.
  - cbn [rstrip]. cbn [rstrip] in IH. by rewrite IH.
Qed.

Lemma lstrip_rstrip_lstrip s : lstrip (rstrip (lstrip s)) = rstrip (lstrip s).
Proof.
  induction s as [|c s IH]; [done|]. cbn [lstrip].
  destruct (isspace c) eqn:Hc; [exact IH|]. cbn [rstrip].
  destruct (rstrip s); cbn [lstrip]; rewrite ?Hc; cbn [lstrip]; by rewrite ?Hc.
Qed.

Lemma strip_idemp s : strip (strip s) = strip s.
Proof. unfold strip. by rewrite lstrip_rstrip_lstrip, rstrip_idemp. Qed.

End string_facts.

Section pipeline_facts.
Import PyStr Pipeline.

Ltac ascii_cases :=
  repeat (cbn [startswith];
          match goal with
          | |- context [Ascii.eqb ?a ?b] =>
              destruct (Ascii.eqb_spec a b); subst; try discriminate
          end).

(** No proper suffix of the answer marker is a prefix of it: an occurrence
    cannot start inside the question and end inside the marker. *)
Lemma answer_mark_no_straddle q :
  q ≠ "" → startswith ANSWER_MARK q = false →
  startswith ANSWER_MARK (q +:+ take 8 ANSWER_MARK) = false.
Proof.
  intros Hq Hs.
  destruct (decide (String.length ANSWER_MARK ≤ String.length q)) as [Hlen|Hlen].
  { by rewrite startswith_long. }
  clear Hs. unfold ANSWER_MARK in *. cbn [take].
  do 9 (destruct q as [|? q];
        [try done; rewrite ?app_String, ?app_empty_l; ascii_cases; done|]).
  simpl in Hlen. lia.
Qed.

Lemma answer_mark_not_in_app q :
  contains ANSWER_MARK q = false →
  contains ANSWER_MARK (q +:+ take 8 ANSWER_MARK) = false.
Proof.
  induction q as [|c q IH]; [done|].
  rewrite app_String, !contains_cons. intros [Hs Hc]%orb_false_elim.
  rewrite IH by done. rewrite <- app_String, answer_mark_no_straddle; done.
Qed.

End pipeline_facts.

(** ** The sentence splitter *)

Section split_facts.
Import PyStr Ingest.

Lemma weave_String c p rest : weave (String c p) rest = String c (weave p rest).
Proof. by destruct rest as [|[sep q] rest]. Qed.

Lemma has_boundary_String c p :
  has_boundary p = false →
  (is_terminator c = true → lstrip p = p) →
  has_boundary (String c p) = false.
Proof.
  intros Hp Hc. cbn [has_boundary]. rewrite Hp, orb_false_r.
  destruct p as [|d p]; [done|].
  destruct (is_terminator c); [|done].
  specialize (Hc eq_refl). cbn [lstrip] in Hc.
  destruct (isspace d) eqn:Hd; [|done].
  exfalso. clear -Hc.
  assert (String.length (lstrip p) ≤ String.length p) as Hlen.
  { clear. induction p as [|c p IH]; [done|]. cbn. destruct (isspace c); cbn; lia. }
  rewrite Hc in Hlen. cbn in Hlen. lia.
Qed.

Lemma re_split_go_spec s st :
  ∃ lead seps,
    let '(p, ps) := re_split_go st s in
    s = lead +:+ weave p (zip seps ps)
    ∧ List.length seps = List.length ps
    ∧ all_space lead = true
    ∧ (st ≠ InMatch → lead = "")
    ∧ (st ≠ InPiece false → lstrip p = p)
    ∧ Forall (λ sep, sep ≠ "" ∧ all_space sep = true) seps
    ∧ junction st p ps
    ∧ has_boundary p = false
    ∧ Forall (λ q, has_boundary q = false) ps
    ∧ Forall (λ q, lstrip q = q) ps.
Proof.
  revert st. induction s as [|c s IH]; intros st.
  { exists "", []. cbn. repeat split; by try constructor. }
  assert (∀ after, (after && isspace c) = false →
    ∃ lead seps,
      let '(p, ps) :=
        (let '(p, ps) := re_split_go (InPiece (is_terminator c)) s in (String c p, ps)) in
      String c s = lead +:+ weave p (zip seps ps)
      ∧ List.length seps = List.length ps
      ∧ all_space lead = true
      ∧ lead = ""
      ∧ (after = true → lstrip p = p)
      ∧ Forall (λ sep, sep ≠ "" ∧ all_space sep = true) seps
      ∧ junction (InPiece after) p ps
      ∧ has_boundary p = false
      ∧ Forall (λ q, has_boundary q = false) ps
      ∧ Forall (λ q, lstrip q = q) ps) as Hkeep.
  { intros after Hafter.
    destruct (IH (InPiece (is_terminator c))) as (lead & seps & H).
    destruct (re_split_go (InPiece (is_terminator c)) s) as [p ps].
    destruct H as (Hs & Hlen & _ & Hlead & Hstrip & Hseps & Hj & Hb & Hbs & Hls).
    rewrite Hlead in Hs by done. rewrite app_empty_l in Hs.
    exists "", seps. rewrite app_empty_l, weave_String, <- Hs.
    repeat split; try done.
    - intros ->. cbn in Hafter. cbn [lstrip]. by rewrite Hafter.
    - destruct ps as [|q qs]; [done|]. destruct Hj as [Hp Hq]. split; [|done].
      right. destruct Hp as [[-> [= Hc]]|Hp]; [done|].
      destruct p; [done|]. done.
    - apply has_boundary_String; [done|]. intros Hc. apply Hstrip. by rewrite Hc. }
  destruct st as [after|]; cbn [re_split_go].
  - destruct (after && isspace c) eqn:Hafter.
    + apply andb_true_iff in Hafter as [-> Hc].
      destruct (IH InMatch) as (lead & seps & H).
      destruct (re_split_go InMatch s) as [p ps].
      destruct H as (Hs & Hlen & Hlead & _ & Hstrip & Hseps & Hj & Hb & Hbs & Hls).
      exists "", (String c lead :: seps). cbn [zip zip_with weave].
      rewrite !app_empty_l, app_String, <- Hs. repeat split; try done.
      * cbn. by rewrite Hlen.
      * constructor; [|done]. split; [done|]. cbn. by rewrite Hc, Hlead.
      * by left.
      * destruct ps as [|q qs]; [done|]. destruct Hj as [[[_ [=]]|Hp] Hq]. done.
      * by constructor.
      * constructor; [|done]. by apply Hstrip.
    + destruct (Hkeep after Hafter) as (lead & seps & H).
      exists lead, seps.
      destruct (re_split_go (InPiece (is_terminator c)) s) as [p ps].
      destruct H as (Hs & Hlen & Hlead & Hl & Hstrip & Hseps & Hj & Hb & Hbs & Hls).
      repeat split; try done.
      intros Hne. apply Hstrip. by destruct after.
  - destruct (isspace c) eqn:Hc.
    + destruct (IH InMatch) as (lead & seps & H).
      exists (String c lead), seps.
      destruct (re_split_go InMatch s) as [p ps].
      destruct H as (Hs & Hlen & Hlead & _ & Hstrip & Hseps & Hj & Hb & Hbs & Hls).
      rewrite app_String, <- Hs. repeat split; try done.
      cbn. by rewrite Hc, Hlead.
    + destruct (Hkeep false eq_refl) as (lead & seps & H).
      exists lead, seps.
      destruct (re_split_go (InPiece (is_terminator c)) s) as [p ps].
      destruct H as (Hs & Hlen & Hlead & Hl & Hstrip & Hseps & Hj & Hb & Hbs & Hls).
      repeat split; try done.
      * intros _. cbn [lstrip]. by rewrite Hc.
      * destruct ps as [|q qs]; [done|]. destruct Hj as [[[_ [=]]|Hp] Hq].
        split; [by right|done].
Qed.

(** The pieces of the regular-expression split are the text cut at its
    sentence boundaries. *)
Lemma sentence_end_split_spec text :
  cut_at_boundaries text (sentence_end_split text).
Proof.
  unfold sentence_end_split, cut_at_boundaries.
  destruct (re_split_go_spec text (InPiece false)) as (lead & seps & H).
  destruct (re_split_go (InPiece false) text) as [p ps].
  destruct H as (Hs & Hlen & _ & Hlead & _ & Hseps & Hj & Hb & Hbs & Hls).
  rewrite Hlead in Hs by done.
  exists p, ps, seps. repeat split; try done.
  - destruct ps as [|q qs]; [done|]. destruct Hj as [[[_ [=]]|Hp] Hq]. done.
  - by constructor.
Qed.

(** A piece is dropped exactly when it is empty or whitespace only. *)
Lemma truthy_strip s : truthy (strip s) = negb (all_space s).
Proof.
  unfold strip. induction s as [|c s IH]; [done|]. cbn [lstrip all_space].
  destruct (isspace c) eqn:Hc; [done|]. cbn [rstrip].
  destruct (rstrip s); by rewrite ?Hc.
Qed.

Lemma sentences_of_pieces text :
  sentences_of text
  = strip <$> List.filter (λ p, negb (all_space p)) (sentence_end_split text).
Proof.
  unfold sentences_of. induction (sentence_end_split text) as [|p ps IH]; [done|].
  cbn. rewrite truthy_strip. destruct (all_space p); cbn; by rewrite IH.
Qed.


(** *** What the kept sentences look like *)

Lemma terminator_not_space c : is_terminator c = true → isspace c = false.
Proof.
  unfold is_terminator, isspace.
  destruct c as [[] [] [] [] [] [] [] []]; done.
Qed.

Lemma ends_with_terminator_String c s :
  s ≠ "" → ends_with_terminator (String c s) = ends_with_terminator s.
Proof. by destruct s. Qed.

Lemma ends_with_terminator_not_space s :
  ends_with_terminator s = true → all_space s = false.
Proof.
  induction s as [|c s IH]; [done|]. destruct s as [|d s].
  - cbn. intros Hc%terminator_not_space. by rewrite Hc.
  - intros H. specialize (IH H). cbn [all_space] in *. rewrite IH. apply andb_false_r.
Qed.

Lemma rstrip_ends_with_terminator s :
  ends_with_terminator s = true → rstrip s = s.
Proof.
  induction s as [|c s IH]; [done|]. destruct s as [|d s].
  - cbn. intros Hc%terminator_not_space. by rewrite Hc.
  - intros H. specialize (IH H). cbn [rstrip] in *. by rewrite IH.
Qed.

Lemma lstrip_ends_with_terminator s :
  ends_with_terminator s = true → ends_with_terminator (lstrip s) = true.
Proof.
  induction s as [|c s IH]; [done|]. intros H. cbn [lstrip].
  destruct (isspace c) eqn:Hc; [|done]. apply IH.
  destruct s as [|d s]; [|done]. cbn in H. apply terminator_not_space in H. congruence.
Qed.

Lemma strip_ends_with_terminator s :
  ends_with_terminator s = true → ends_with_terminator (strip s) = true.
Proof.
  intros H%lstrip_ends_with_terminator. unfold strip.
  by rewrite rstrip_ends_with_terminator.
Qed.

Lemma has_boundary_tail c s : has_boundary (String c s) = false → has_boundary s = false.
Proof. cbn [has_boundary]. by intros [_ ?]%orb_false_elim. Qed.

Lemma has_boundary_lstrip s : has_boundary s = false → has_boundary (lstrip s) = false.
Proof.
  induction s as [|c s IH]; [done|]. intros H. cbn [lstrip].
  destruct (isspace c); [|done]. by apply IH, (has_boundary_tail c).
Qed.

Lemma rstrip_head d r s : rstrip s = String d r → ∃ s', s = String d s'.
Proof.
  destruct s as [|c s]; [done|]. cbn [rstrip].
  destruct (rstrip s); [destruct (isspace c)|]; intros [= <- <-]; eauto.
Qed.

Lemma has_boundary_rstrip s : has_boundary s = false → has_boundary (rstrip s) = false.
Proof.
  induction s as [|c s IH]; [done|]. intros H.
  pose proof (has_boundary_tail _ _ H) as Hs. specialize (IH Hs).
  cbn [rstrip]. destruct (rstrip s) as [|d r] eqn:Hr.
  - by destruct (isspace c).
  - destruct (rstrip_head _ _ _ Hr) as [s' ->].
    cbn [has_boundary] in *. rewrite IH, orb_false_r.
    by apply orb_false_elim in H as [-> _].
Qed.

Lemma has_boundary_strip s : has_boundary s = false → has_boundary (strip s) = false.
Proof. intros H. by apply has_boundary_rstrip, has_boundary_lstrip. Qed.

Lemma kept_sentences_end p ps :
  end_at_terminators p ps →
  all_but_last_end (strip <$> List.filter (λ q, negb (all_space q)) (p :: ps)).
Proof.
  revert p. induction ps as [|q qs IH]; intros p Hp.
  - cbn. by destruct (negb (all_space p)).
  - destruct Hp as [Hp Hq]. specialize (IH q Hq).
    cbn [List.filter]. rewrite (ends_with_terminator_not_space p Hp). cbn [negb fmap list_fmap].
    cbn [List.filter] in IH.
    destruct (strip <$> _) as [|t ts]; [done|]. cbn. split; [|done].
    by apply strip_ends_with_terminator.
Qed.

(** The sentences of a text: non-empty, trimmed, without a boundary inside,
    and all but the last one end with a terminator. *)
Lemma sentences_of_shape text :
  Forall sentence_like (sentences_of text)
  ∧ all_but_last_end (sentences_of text).
Proof.
  destruct (sentence_end_split_spec text)
    as (p & ps & seps & Hpieces & _ & _ & _ & Hend & Hb & _).
  split.
  - unfold sentences_of. rewrite Hpieces in Hb. rewrite Hpieces. clear -Hb.
    induction Hb as [|q qs Hq _ IH]; [done|].
    cbn. destruct (truthy (strip q)) eqn:Ht; [|done]. cbn.
    constructor; [|done]. split; [by destruct (strip q)|].
    split; [apply strip_idemp | by apply has_boundary_strip].
  - rewrite sentences_of_pieces, Hpieces. by apply kept_sentences_end.
Qed.


(** *** Splitting a chunk again *)

Lemma strip_fixed_lstrip s : strip s = s → lstrip s = s.
Proof. intros H. rewrite <- H. apply lstrip_rstrip_lstrip. Qed.

Lemma lstrip_head_not_space c s : lstrip (String c s) = String c s → isspace c = false.
Proof.
  cbn [lstrip]. destruct (isspace c); [|done]. intros H.
  assert (String.length (lstrip s) ≤ String.length s) as Hlen.
  { clear. induction s as [|c s IH]; [done|]. cbn. destruct (isspace c); cbn; lia. }
  rewrite H in Hlen. cbn in Hlen. lia.
Qed.

(** Scanning a text without a boundary adds it to the piece under
    construction. *)
Lemma re_split_go_app s t after :
  has_boundary s = false →
  (after = true → lstrip s = s) →
  re_split_go (InPiece after) (s +:+ t)
  = let '(p, ps) :=
      re_split_go (InPiece (match s with "" => after | _ => ends_with_terminator s end)) t
    in (s +:+ p, ps).
Proof.
  revert after. induction s as [|c s IH]; intros after Hb Ha.
  - rewrite app_empty_l. by destruct (re_split_go _ t).
  - rewrite app_String. cbn [re_split_go].
    assert (after && isspace c = false) as ->.
    { destruct after; [|done]. by rewrite (lstrip_head_not_space c s (Ha eq_refl)). }
    rewrite IH.
    + assert (match s with "" => is_terminator c | _ => ends_with_terminator s end
              = ends_with_terminator (String c s)) as -> by (by destruct s).
      by destruct (re_split_go _ t).
    + by apply (has_boundary_tail c).
    + intros Hc. destruct s as [|d s]; [done|].
      cbn [has_boundary] in Hb. apply orb_false_elim in Hb as [Hb _].
      rewrite Hc in Hb. cbn in Hb. cbn [lstrip]. by rewrite Hb.
Qed.

Lemma re_split_go_InMatch s :
  lstrip s = s → s ≠ "" → re_split_go InMatch s = re_split_go (InPiece false) s.
Proof.
  destruct s as [|c s]; [done|]. intros Hc%lstrip_head_not_space _.
  cbn [re_split_go]. by rewrite Hc.
Qed.

Lemma join_cons sep x y l : join sep (x :: y :: l) = x +:+ sep +:+ join sep (y :: l).
Proof. done. Qed.

Lemma join_head_sentence_like g :
  g ≠ [] → Forall sentence_like g →
  lstrip (join " " g) = join " " g ∧ join " " g ≠ "".
Proof.
  destruct g as [|x [|y l]]; [done| |]; intros _ Hg;
    apply Forall_cons in Hg as [(Hne & Hs%strip_fixed_lstrip & _) _].
  - done.
  - rewrite join_cons. destruct x as [|c x]; [done|].
    rewrite app_String. split; [|done].
    apply lstrip_head_not_space in Hs. cbn [lstrip]. by rewrite Hs.
Qed.

Lemma sentence_end_split_join g :
  g ≠ [] → Forall sentence_like g → all_but_last_end g →
  sentence_end_split (join " " g) = g.
Proof.
  unfold sentence_end_split.
  induction g as [|x g IH]; [done|]. intros _ Hall Hend.
  apply Forall_cons in Hall as [(Hne & Hs & Hb) Hall].
  destruct g as [|y g].
  - cbn [join]. rewrite <- (app_empty_r x) at 1.
    rewrite re_split_go_app; [|done..]. cbn. by rewrite app_empty_r.
  - destruct Hend as [Hx Hend]. rewrite join_cons.
    rewrite re_split_go_app; [|done..].
    destruct x as [|c x]; [done|]. rewrite Hx.
    change (" " +:+ join " " (y :: g)) with (String " " (join " " (y :: g))).
    cbn [re_split_go andb isspace].
    destruct (join_head_sentence_like (y :: g)) as [Hl Hj]; [done..|].
    rewrite re_split_go_InMatch by done.
    specialize (IH ltac:(done) Hall Hend).
    destruct (re_split_go (InPiece false) (join " " (y :: g))) as [p ps].
    rewrite app_empty_r. by rewrite IH.
Qed.

(** The sentences of a chunk are the sentences it was joined from. *)
Lemma sentences_of_join g :
  Forall sentence_like g → all_but_last_end g → sentences_of (join " " g) = g.
Proof.
  intros Hall Hend. destruct (decide (g = [])) as [->|Hne]; [done|].
  unfold sentences_of. rewrite sentence_end_split_join by done.
  clear Hend Hne. induction Hall as [|x g (Hne & Hs & _) _ IH]; [done|].
  cbn. rewrite Hs. destruct x; [done|]. cbn. by rewrite IH.
Qed.

Lemma all_but_last_end_app l1 l2 :
  all_but_last_end (l1 ++ l2) → all_but_last_end l1 ∧ all_but_last_end l2.
Proof.
  induction l1 as [|x l1 IH]; [done|]. 
  destruct l1 as [|y l1].
  - cbn. destruct l2; [done|]. by intros [_ ?].
  - intros [Hx H]. destruct (IH H) as [H1 H2]. by repeat split.
Qed.

Lemma groups_sentences (groups : list (list string)) :
  Forall sentence_like (List.concat groups) →
  all_but_last_end (List.concat groups) →
  List.concat (sentences_of <$> (List.map (join " ") groups)) = List.concat groups.
Proof.
  induction groups as [|g groups IH]; [done|]. cbn [List.concat List.map fmap list_fmap].
  intros [Hg Hgs]%Forall_app [Eg Egs]%all_but_last_end_app.
  cbn. rewrite sentences_of_join by done. f_equal. by apply IH.
Qed.

End split_facts.



(** ** The chunker *)

Section chunker_theorems.
Import PyStr Ingest.

Lemma ceil3_step n : 0 < n → (n + 2) / 3 = S ((n - 3 + 2) / 3).
Proof.
  intros Hn. destruct (decide (n < 3)) as [Hlt|Hge].
  - assert (n - 3 = 0) as -> by lia.
    destruct n as [|[|[|?]]]; try lia; reflexivity.
  - replace (n + 2) with ((n - 3 + 2) + 1 * 3) by lia.
    rewrite Nat.div_add by lia. lia.
Qed.

Lemma slice_length {A} (l : list A) i :
  i < List.length l → 1 ≤ List.length (slice l i (i + 3)) ≤ 3.
Proof.
  intros Hi. unfold slice. rewrite length_take, length_drop. lia.
Qed.

Lemma slice_drop {A} (l : list A) i :
  slice l i (i + 3) ++ List.skipn (i + 3) l = List.skipn i l.
Proof.
  unfold slice. replace (i + 3 - i) with 3 by lia.
  rewrite <- drop_drop. apply take_drop.
Qed.

(** The loop started at [i] with [acc] appends one chunk per group of the
    remaining sentences. *)
Lemma chunk_loop_groups (ss : list string) (i : nat) (acc : list string) :
  ∃ groups : list (list string),
    chunk_loop ss i acc = acc ++ List.map (join " ") groups
    ∧ List.concat groups = List.skipn i ss
    ∧ Forall (λ g, 1 ≤ List.length g ≤ 3) groups
    ∧ List.length groups = (List.length ss - i + 2) / 3.
Proof.
  funelim (chunk_loop ss i acc).
  - destruct H as (groups & Hloop & Hcat & Hall & Hlen).
    exists (slice sentences i (i + 3) :: groups).
    rewrite Hloop. repeat split.
    + rewrite <- app_assoc. reflexivity.
    + simpl. rewrite Hcat. apply slice_drop.
    + constructor; [by apply slice_length | done].
    + cbn [List.length].
      rewrite Hlen, (ceil3_step (List.length sentences - i)) by lia.
      do 3 f_equal. lia.
  - exists []. repeat split.
    + by rewrite app_nil_r.
    + simpl. symmetry. apply drop_ge. lia.
    + constructor.
    + simpl. replace (List.length sentences - i) with 0 by lia. reflexivity.
Qed.

(** C2: the text is cut at its sentence boundaries (a terminator followed by
    whitespace), pieces that are empty or whitespace only are dropped and the
    others trimmed; the chunks are the groups of one to three consecutive
    sentences, joined by a blank; splitting the chunks into sentences again
    and concatenating gives back the sentences of the text in order; the
    number of chunks is ceil(sentences / 3); the empty text gives no chunk. *)
Theorem split_into_chunks_spec text :
  let pieces := sentence_end_split text in
  let sentences := sentences_of text in
  let chunks := split_into_chunks text in
  cut_at_boundaries text pieces
  ∧ sentences = strip <$> List.filter (λ p, negb (all_space p)) pieces
  ∧ Forall sentence_like sentences
  ∧ (∃ groups : list (list string),
        chunks = List.map (join " ") groups
        ∧ List.concat groups = sentences
        ∧ Forall (λ g, 1 ≤ List.length g ≤ 3) groups)
  ∧ List.concat (sentences_of <$> chunks) = sentences
  ∧ List.length chunks = (List.length sentences + 2) / 3
  ∧ split_into_chunks "" = [].
Proof.
  intros pieces sentences chunks.
  destruct (chunk_loop_groups sentences 0 []) as (groups & Hloop & Hcat & Hall & Hlen).
  destruct (sentences_of_shape text) as [Hshape Hend].
  change (List.skipn 0 sentences) with sentences in Hcat.
  assert (chunks = List.map (join " ") groups) as Hchunks by exact Hloop.
  split; [apply sentence_end_split_spec|].
  split; [apply sentences_of_pieces|].
  split; [done|].
  split; [by exists groups|].
  split; [|split; [|reflexivity]].
  - rewrite Hchunks, <- Hcat. apply groups_sentences; by rewrite Hcat.
  - rewrite Hchunks, length_map, Hlen. by rewrite Nat.sub_0_r.
Qed.

End chunker_theorems.

(** ** The answer composer *)

Section pipeline_theorems.
Import PyStr Pipeline.

Lemma split1_first sep a b :
  sep ≠ "" →
  contains sep (a +:+ take (String.length sep - 1) sep) = false →
  split1 sep (a +:+ sep +:+ b) = [a; b].
Proof. intros ??. unfold split1. by rewrite partition_first. Qed.

Lemma replace1_prefix old s : replace1 old "" (old +:+ s) = s.
Proof.
  unfold replace1. rewrite partition_unfold, startswith_app.
  by rewrite drop_app_length.
Qed.

Lemma replace1_answer_mark q :
  contains ANSWER_MARK q = false → replace1 ANSWER_MARK "" (q +:+ ANSWER_MARK) = q.
Proof.
  intros Hq. unfold replace1.
  rewrite <- (app_empty_r ANSWER_MARK) at 2.
  rewrite partition_first; [by rewrite !app_empty_r|done|].
  by apply answer_mark_not_in_app.
Qed.

(** Both markers present: splitting at the question marker gives two parts. *)
Lemma parse_prompt_returns prompt :
  contains QUESTION_MARK prompt = true →
  ∃ p0 p1, prompt = p0 +:+ QUESTION_MARK +:+ p1
    ∧ parse_prompt prompt
      = Return (strip (replace1 CONTEXT_MARK "" p0), strip (replace1 ANSWER_MARK "" p1)).
Proof.
  unfold contains, parse_prompt, split1.
  destruct (partition QUESTION_MARK prompt) as [[p0 p1]|] eqn:Hp; [|done].
  intros _. exists p0, p1. split; [by apply partition_sound|done].
Qed.

Lemma split_head sep s : getitem (split sep s) 0 = Return (before_first sep s).
Proof.
  unfold split, before_first. destruct s as [|c s].
  - simpl. destruct sep; [|done]. done.
  - cbn [String.length split_rounds].
    by destruct (partition sep (String c s)) as [[a b]|].
Qed.

Lemma first_sentence_of_spec cb :
  first_sentence_of cb = Return (with_period (strip (before_first ". " cb))).
Proof.
  unfold first_sentence_of. rewrite split_head. unfold with_period. cbn.
  by destruct (endswith "." _).
Qed.

Lemma contains_answer_of_first fs qb : contains fs (answer_of fs qb) = true.
Proof.
  apply contains_spec.
  by exists "Based on the context: ",
    (" In answer to " +:+ dquote +:+ qb +:+ dquote
       +:+ ": The relevant information is in the context above.").
Qed.

Lemma contains_answer_of_question fs qb : contains qb (answer_of fs qb) = true.
Proof.
  apply contains_spec. unfold answer_of.
  exists ("Based on the context: " +:+ fs +:+ " In answer to " +:+ dquote),
    (dquote +:+ ": The relevant information is in the context above.").
  by rewrite <- !app_assoc_str.
Qed.

Lemma parse_build_prompt context question :
  contains QUESTION_MARK (CONTEXT_MARK +:+ context +:+ take 11 QUESTION_MARK) = false →
  contains ANSWER_MARK question = false →
  parse_prompt (build_prompt context question) = Return (strip context, strip question).
Proof.
  intros Hc Hq. unfold parse_prompt, build_prompt.
  rewrite (app_assoc_str CONTEXT_MARK context).
  rewrite split1_first; [|done|by rewrite <- app_assoc_str].
  cbn. by rewrite replace1_prefix, replace1_answer_mark.
Qed.


Lemma build_prompt_has_markers context question :
  contains CONTEXT_MARK (build_prompt context question) = true
  ∧ contains QUESTION_MARK (build_prompt context question) = true.
Proof.
  split; apply contains_spec; unfold build_prompt.
  - by exists "", (context +:+ QUESTION_MARK +:+ question +:+ ANSWER_MARK).
  - exists (CONTEXT_MARK +:+ context), (question +:+ ANSWER_MARK).
    by rewrite <- !app_assoc_str.
Qed.

Lemma placeholder_llm_template context question :
  contains QUESTION_MARK (CONTEXT_MARK +:+ context +:+ take 11 QUESTION_MARK) = false →
  contains ANSWER_MARK question = false →
  placeholder_llm (build_prompt context question)
  = Return (answer_of (with_period (strip (before_first ". " (strip context))))
                      (strip question)).
Proof.
  intros Hc Hq. unfold placeholder_llm.
  destruct (build_prompt_has_markers context question) as [-> ->].
  cbn [andb]. rewrite parse_build_prompt by done. cbn.
  by rewrite first_sentence_of_spec.
Qed.

(** C5: for every prompt in which the two template markers are not both
    present, the generator returns the fixed fallback string; it does not
    raise. *)
Theorem placeholder_llm_fallback prompt :
  contains CONTEXT_MARK prompt = false ∨ contains QUESTION_MARK prompt = false →
  placeholder_llm prompt = Return FALLBACK.
Proof.
  intros H. unfold placeholder_llm.
  destruct H as [-> | ->]; [done|]. by rewrite andb_false_r.
Qed.

(** The generator returns on every prompt. *)
Lemma placeholder_llm_returns prompt : ∃ answer, placeholder_llm prompt = Return answer.
Proof.
  unfold placeholder_llm.
  destruct (contains CONTEXT_MARK prompt); cbn [andb]; [|by eexists].
  destruct (contains QUESTION_MARK prompt) eqn:Hq; [|by eexists].
  destruct (parse_prompt_returns prompt Hq) as (p0 & p1 & _ & ->). cbn.
  rewrite first_sentence_of_spec. by eexists.
Qed.

(** C6, as amended: on a prompt with both markers the generator parses the
    two blocks, takes the whitespace-trimmed text of the context block up to
    the first ". " (or all of it), appends a period if there is none, and
    returns the fixed-shape answer, which contains that first sentence and the
    question block. Composing the single chunk of the Paris scenario with a
    question that does not contain the answer marker yields the answer built
    from "Paris is the capital of France." and the whitespace-trimmed
    question, and it contains both. *)
Theorem placeholder_llm_answer prompt question :
  contains CONTEXT_MARK prompt = true →
  contains QUESTION_MARK prompt = true →
  contains ANSWER_MARK question = false →
  (∃ context_block question_block,
      parse_prompt prompt = Return (context_block, question_block)
      ∧ let first_sentence :=
          with_period (strip (before_first ". " context_block)) in
        let answer := answer_of first_sentence question_block in
        placeholder_llm prompt = Return answer
        ∧ contains first_sentence answer = true
        ∧ contains question_block answer = true)
  ∧ (let answer := answer_of PARIS_FIRST (strip question) in
     compose [PARIS] question
     = ([Generated (build_prompt PARIS question)], Return answer)
     ∧ contains PARIS_FIRST answer = true
     ∧ contains (strip question) answer = true).
Proof.
  intros Hc Hq Ha. split.
  - destruct (parse_prompt_returns prompt Hq) as (p0 & p1 & _ & Hparse).
    eexists _, _. split; [exact Hparse|]. cbn zeta.
    split; [|split].
    + unfold placeholder_llm. rewrite Hc, Hq, Hparse. cbn.
      by rewrite first_sentence_of_spec.
    + apply contains_answer_of_first.
    + apply contains_answer_of_question.
  - cbn zeta. split; [|split].
    + unfold compose, generate.
      assert (build_context [PARIS] = PARIS) as -> by reflexivity.
      rewrite placeholder_llm_template; [done|by vm_compute|done].
    + apply contains_answer_of_first.
    + apply contains_answer_of_question.
Qed.

(** C7, as amended: when the question marker does not occur in the prompt
    before the one the template writes (it does not occur in
    "Context:\n" + context + "\n\nQuestion:") and the question does not
    contain the answer marker, parsing [build_prompt context question] gives
    back the whitespace-trimmed context and question. *)
Theorem prompt_round_trip context question :
  contains QUESTION_MARK (CONTEXT_MARK +:+ context +:+ take 11 QUESTION_MARK) = false →
  contains ANSWER_MARK question = false →
  parse_prompt (build_prompt context question) = Return (strip context, strip question).
Proof. apply parse_build_prompt. Qed.

End pipeline_theorems.

(** ** The retriever *)

Section retriever_theorems.
Import PyStr Search.

Lemma map_items_hits w (metadata : metadata_map) items acc :
  Forall (λ item, passes_guard item = true → is_Some (hit_id item)) items →
  map_items w metadata items acc
  = Return (acc ++ (entry_for metadata <$> omap hit_id items)).
Proof.
  intros Hall. revert acc. induction Hall as [|item items Hitem _ IH]; intros acc.
  - simpl. by rewrite app_nil_r.
  - cbn [map_items]. destruct (passes_guard item) eqn:Hg; cbn [negb].
    + destruct (Hitem eq_refl) as [cid Hid].
      destruct item as [| | | | |  |[|score [|[] rest]]|]; try done.
      injection Hid as ->. cbn. unfold entry_for.
      destruct (metadata !! cid) as [rec|]; cbn.
      * destruct (rec !! "text") as [t|]; rewrite IH, <- app_assoc; done.
      * rewrite IH, <- app_assoc; done.
    + rewrite IH. f_equal. f_equal.
      destruct item as [| | | | |  |[|score [|[] rest]]|]; done.
Qed.

Lemma hits_length items :
  Forall (λ item, passes_guard item = true → is_Some (hit_id item)) items →
  List.length (omap hit_id items) = List.length (List.filter passes_guard items).
Proof.
  induction 1 as [|item items Hitem _ IH]; [done|]. cbn.
  destruct (passes_guard item) eqn:Hg.
  - destruct (Hitem eq_refl) as [cid ->]. cbn. by rewrite IH.
  - destruct item as [| | | | |  |[|score [|[] rest]]|]; done.
Qed.

(** The loop on a decoded payload in general: when the request succeeds with
    a MessagePack response whose payload holds a list of results, the
    metadata file loads, and every item that passes the guard of the loop
    has a [str] chunk id at index 1, [retrieve_chunks] returns one entry per
    such item, in rank order: the text of the id's record when the id is in
    the metadata and its record has a "text" field, the sentinel otherwise.
    Items that do not pass the guard yield no entry. *)
Theorem retrieve_chunks_entries w query v resp payload items
    (metadata : metadata_map) :
  encode w query = Return v →
  post w v = Return resp →
  status_code resp = 200%Z →
  contains "application/msgpack" (default "" (content_type_header resp)) = true →
  unpackb w (content resp) = Return payload →
  results_of payload = VList items →
  metadata_file w = Some (Return metadata) →
  Forall (λ item, passes_guard item = true → is_Some (hit_id item)) items →
  let chunks := entry_for metadata <$> omap hit_id items in
  retrieve_chunks w query = ([Unpacked (content resp)], Return chunks)
  ∧ List.length chunks = List.length (List.filter passes_guard items).
Proof.
  intros He Hp Hs Hct Hu Hr Hm Hall chunks. split.
  - unfold retrieve_chunks. rewrite He. cbn. rewrite Hp. cbn.
    rewrite Hs, Hct. cbn. rewrite Hu. cbn. unfold load_metadata. rewrite Hm, Hr. cbn.
    by rewrite map_items_hits.
  - unfold chunks. rewrite length_fmap. by apply hits_length.
Qed.

(** Whatever follows it in the results, an item of exactly one element
    passes the guard and stops the loop with an [IndexError]. *)
Lemma map_items_one_element w (metadata : metadata_map) x rest chunks :
  passes_guard (VList [x]) = true
  ∧ map_items w metadata (VList [x] :: rest) chunks
    = Raise (Exn IndexError "list index out of range").
Proof. split; reflexivity. Qed.

(** C4, as amended: when the request succeeds with status 200 and the
    declared content type does not contain "application/msgpack" (a missing
    header counts as the empty string), [retrieve_chunks] prints its two
    diagnostic lines, does not call the decoder and returns the empty list. *)
Theorem retrieve_chunks_not_msgpack w query v resp :
  encode w query = Return v →
  post w v = Return resp →
  status_code resp = 200%Z →
  contains "application/msgpack" (default "" (content_type_header resp)) = false →
  retrieve_chunks w query
  = ([Printed "DEBUG: Non-msgpack response from Endee";
      Printed (take 300 (text resp))], Return []).
Proof.
  intros He Hp Hs Hct. unfold retrieve_chunks. rewrite He. cbn. rewrite Hp. cbn.
  by rewrite Hs, Hct.
Qed.

(** C1: for every decoded list of search hits (each hit a list that starts
    with a score and a [str] chunk id) and every metadata mapping (each
    record with its text), [retrieve_chunks] returns exactly one entry per
    hit, in rank order: the text of the metadata for the hit's id when the id
    is in the metadata, the sentinel "[No text for id: <id>]" at that
    position otherwise; so the result is as long as the list of hits. *)
Theorem retrieve_chunks_one_entry_per_hit w query v resp payload items
    (metadata : metadata_map) :
  encode w query = Return v →
  post w v = Return resp →
  status_code resp = 200%Z →
  contains "application/msgpack" (default "" (content_type_header resp)) = true →
  unpackb w (content resp) = Return payload →
  results_of payload = VList items →
  metadata_file w = Some (Return metadata) →
  Forall (λ item, is_Some (hit_id item)) items →
  (∀ chunk_id rec, metadata !! chunk_id = Some rec → is_Some (rec !! "text")) →
  ∃ chunks,
    retrieve_chunks w query = ([Unpacked (content resp)], Return chunks)
    ∧ List.length chunks = List.length items
    ∧ Forall2 (λ item chunk,
        ∃ chunk_id, hit_id item = Some chunk_id
          ∧ match metadata !! chunk_id with
            | Some rec => rec !! "text" = Some chunk
            | None => chunk = "[No text for id: " +:+ chunk_id +:+ "]"
            end) items chunks.
Proof.
  intros He Hp Hs Hct Hu Hr Hm Hhits Htext.
  exists (entry_for metadata <$> omap hit_id items).
  assert (Forall2 (λ item chunk,
            ∃ chunk_id, hit_id item = Some chunk_id
              ∧ match metadata !! chunk_id with
                | Some rec => rec !! "text" = Some chunk
                | None => chunk = "[No text for id: " +:+ chunk_id +:+ "]"
                end) items (entry_for metadata <$> omap hit_id items)) as Hall.
  { clear -Hhits Htext. induction Hhits as [|item items [cid Hid] _ IH]; cbn.
    { constructor. }
    rewrite Hid. cbn. constructor; [|exact IH].
    exists cid. split; [done|]. unfold entry_for.
    destruct (metadata !! cid) as [rec|] eqn:Hrec; cbn; [|done].
    destruct (Htext cid rec Hrec) as [t Ht]. by rewrite Ht. }
  split; [|split; [|exact Hall]].
  - unfold retrieve_chunks. rewrite He. cbn. rewrite Hp. cbn.
    rewrite Hs, Hct. cbn. rewrite Hu. cbn. unfold load_metadata. rewrite Hm, Hr. cbn.
    rewrite map_items_hits; [done|].
    eapply Forall_impl; [exact Hhits|]. by intros item Hitem _.
  - symmetry. by eapply Forall2_length.
Qed.

End retriever_theorems.

(** ** Composition and the endpoint *)

Section run_rag_theorems.
Import PyStr Search Pipeline App.

Ltac solve_no_generate :=
  let H := fresh in
  intros H;
  repeat (apply elem_of_cons in H as [H|H]; [discriminate H|]);
  by apply elem_of_nil in H.

(** Retrieval prints and decodes; it never calls the generator. *)
Lemma retrieve_chunks_no_generate w query prompt :
  Generated prompt ∉ (retrieve_chunks w query).1.
Proof.
  unfold retrieve_chunks, load_metadata.
  destruct (encode w query) as [v|e]; cbn; [|solve_no_generate].
  destruct (post w v) as [resp|e]; cbn; [|solve_no_generate].
  case_bool_decide; cbn; [solve_no_generate|].
  destruct (contains _ _); cbn; [|solve_no_generate].
  destruct (unpackb w _) as [payload|e]; cbn; [|solve_no_generate].
  destruct (metadata_file w) as [[metadata|e]|]; cbn; [|solve_no_generate..].
  destruct (iterate _) as [items|e]; cbn; [|solve_no_generate].
  destruct (map_items w metadata items []); cbn; solve_no_generate.
Qed.

(** C3, as amended: for every question, composition on the empty chunk list
    returns the fixed "no relevant context" message without calling the
    generator; on a non-empty chunk list the generator is called once, on the
    prompt built from the assembled context, whatever that context is.
    [run_rag] composes what retrieval returns, and retrieval itself never
    calls the generator. *)
Theorem compose_short_circuit w question :
  compose [] question = ([], Return NO_CONTEXT)
  ∧ (∀ c cs,
       let prompt := build_prompt (build_context (c :: cs)) question in
       compose (c :: cs) question = ([Generated prompt], placeholder_llm prompt))
  ∧ run_rag w question
    = match retrieve_chunks w question with
      | (t, Return []) => (t, Return NO_CONTEXT)
      | (t, Return (c :: cs)) =>
          let prompt := build_prompt (build_context (c :: cs)) question in
          (t ++ [Generated prompt], placeholder_llm prompt)
      | (t, Raise e) => (t, Raise e)
      end
  ∧ (∀ prompt, Generated prompt ∉ (retrieve_chunks w question).1).
Proof.
  assert (∀ c cs,
    let prompt := build_prompt (build_context (c :: cs)) question in
    compose (c :: cs) question = ([Generated prompt], placeholder_llm prompt)) as Hne.
  { intros c cs prompt. unfold compose, generate. fold prompt. cbn.
    by destruct (placeholder_llm prompt). }
  split; [done|]. split; [done|]. split.
  - unfold run_rag, mbind, run_bind.
    destruct (retrieve_chunks w question) as [t [[|c cs]|e]];
      [cbn; by rewrite app_nil_r | by rewrite Hne | done].
  - intros prompt. apply retrieve_chunks_no_generate.
Qed.

(** C8: for every world and question, [ask] returns: with the question and
    the answer when the pipeline returns an answer, with the message of the
    exception and the fixed note when the pipeline raises. It never raises
    itself. *)
Theorem ask_returns w question :
  ∃ t b, ask w question = (t, Return b)
    ∧ ((∃ answer, b = Answer question answer
                  ∧ run_rag w question = (t, Return answer))
       ∨ (∃ e, b = Error (exn_msg e) NOTE
               ∧ run_rag w question = (t, Raise e))).
Proof.
  unfold ask. destruct (run_rag w question) as [t [answer|e]]; eauto 10.
Qed.

End run_rag_theorems.

(** ** The ingestion payload *)

Section payload_theorems.
Import Search Payload.

Lemma chunk_id_of_inj i j : chunk_id_of i = chunk_id_of j → i = j.
Proof. unfold chunk_id_of. intros H%(inj (String.app _)). by apply (inj pretty). Qed.

Lemma payload_loop_spec i pairs vectors (metadata : metadata_map) :
  ∃ md,
    payload_loop i pairs vectors metadata
    = (vectors ++ imap (λ j p, Entry (chunk_id_of (i + j)) p.2) pairs, md)
    ∧ (∀ j p, pairs !! j = Some p →
         md !! chunk_id_of (i + j) = Some {["text" := p.1]})
    ∧ (∀ k, (∀ j, j < List.length pairs → k ≠ chunk_id_of (i + j)) →
         md !! k = metadata !! k).
Proof.
  revert i vectors metadata.
  induction pairs as [|[chunk emb] pairs IH]; intros i vectors metadata.
  - exists metadata. cbn. rewrite app_nil_r. done.
  - cbn [payload_loop].
    destruct (IH (S i) (vectors ++ [Entry (chunk_id_of i) emb])
                 (<[chunk_id_of i := {["text" := chunk]}]> metadata))
      as (md & -> & Hin & Hout).
    exists md. split; [|split].
    + rewrite <- app_assoc. cbn. rewrite Nat.add_0_r. do 3 f_equal.
      apply imap_ext. intros j p _. cbn. do 2 f_equal. lia.
    + intros [|j] p Hp.
      * injection Hp as <-. rewrite Nat.add_0_r, Hout.
        -- by rewrite lookup_insert_eq.
        -- intros j _ Heq%chunk_id_of_inj. lia.
      * replace (i + S j) with (S i + j) by lia. by apply Hin.
    + intros k Hk. rewrite Hout.
      * rewrite lookup_insert_ne; [done|]. intros Heq. apply (Hk 0); cbn; [lia|].
        by rewrite Nat.add_0_r.
      * intros j Hj. replace (S i + j) with (i + S j) by lia. apply Hk. cbn. lia.
Qed.

Lemma imap_ids (pairs : list (string * Search.vector)) i :
  id <$> imap (λ j p, Entry (chunk_id_of (i + j)) p.2) pairs
  = chunk_id_of <$> seq i (List.length pairs).
Proof.
  revert i. induction pairs as [|p pairs IH]; intros i; [done|].
  cbn. rewrite Nat.add_0_r. f_equal. rewrite <- IH.
  f_equal. apply imap_ext. intros j q _. cbn. do 2 f_equal. lia.
Qed.

(** C9: with one embedding per chunk, the ids of the insert request are
    "chunk_0", "chunk_1", ... in order, they are pairwise distinct, the keys
    of the metadata are exactly these ids, and the entry sent for the i-th
    chunk carries its embedding under the id whose metadata record holds the
    text of that chunk. *)
Theorem ingest_id_space chunks embeddings :
  List.length embeddings = List.length chunks →
  ∃ vectors (metadata : metadata_map),
    build_payload chunks embeddings = (vectors, metadata)
    ∧ id <$> vectors = chunk_id_of <$> seq 0 (List.length chunks)
    ∧ NoDup (id <$> vectors)
    ∧ dom metadata = list_to_set (id <$> vectors)
    ∧ ∀ i chunk, chunks !! i = Some chunk →
        ∃ emb, embeddings !! i = Some emb
          ∧ vectors !! i = Some (Entry (chunk_id_of i) emb)
          ∧ metadata !! chunk_id_of i = Some {["text" := chunk]}.
Proof.
  intros Hlen. unfold build_payload.
  destruct (payload_loop_spec 0 (zip chunks embeddings) [] ∅)
    as (md & -> & Hin & Hout).
  assert (List.length (zip chunks embeddings) = List.length chunks) as Hzip.
  { rewrite length_zip_with. lia. }
  eexists _, md. split; [done|]. cbn [app].
  assert (id <$> imap (λ j p, Entry (chunk_id_of (0 + j)) p.2) (zip chunks embeddings)
          = chunk_id_of <$> seq 0 (List.length chunks)) as Hids.
  { by rewrite imap_ids, Hzip. }
  split; [done|]. split; [|split].
  - rewrite Hids. apply NoDup_fmap_2; [|apply NoDup_seq].
    intros ??. apply chunk_id_of_inj.
  - rewrite Hids. apply set_eq. intros k.
    rewrite elem_of_dom, elem_of_list_to_set. split.
    + intros Hk.
      destruct (decide (k ∈ chunk_id_of <$> seq 0 (List.length chunks)))
        as [|Hno]; [done|].
      rewrite Hout in Hk; [by destruct Hk|].
      intros j Hj ->. apply Hno, list_elem_of_fmap.
      exists j. split; [done|]. apply elem_of_seq. lia.
    + intros (j & -> & Hj%elem_of_seq)%list_elem_of_fmap.
      destruct (lookup_lt_is_Some_2 (zip chunks embeddings) j) as [p Hp]; [lia|].
      exists {["text" := p.1]}. apply (Hin j p Hp).
  - intros i chunk Hi.
    destruct (lookup_lt_is_Some_2 embeddings i) as [emb Hemb].
    { apply lookup_lt_Some in Hi. lia. }
    assert (zip chunks embeddings !! i = Some (chunk, emb)) as Hp.
    { rewrite lookup_zip_with, Hi. cbn. by rewrite Hemb. }
    exists emb. split; [done|]. split.
    + rewrite list_lookup_imap, Hp. done.
    + apply (Hin i _ Hp).
Qed.

End payload_theorems.

(** ** The theorems at concrete inputs *)

Section examples.
Import PyStr Search Pipeline App Payload Scenario.

Example split_into_chunks_example :
  Ingest.split_into_chunks
    ("One. Two!  Three? Four." +:+ nl +:+ "Five")
  = ["One. Two! Three?"; "Four. Five"].
Proof. reflexivity. Qed.

Lemma retrieve_chunks_one_entry_per_hit_witness :
  ∃ chunks,
    retrieve_chunks two_hits_world "A?" = ([Unpacked two_hits_bytes], Return chunks)
    ∧ List.length chunks = List.length two_hits
    ∧ Forall2 (λ item chunk,
        ∃ chunk_id, hit_id item = Some chunk_id
          ∧ match example_metadata !! chunk_id with
            | Some rec => rec !! "text" = Some chunk
            | None => chunk = "[No text for id: " +:+ chunk_id +:+ "]"
            end) two_hits chunks.
Proof.
  apply (retrieve_chunks_one_entry_per_hit two_hits_world "A?" [0; 0; 0]%Z
           (msgpack_response two_hits_bytes) (VList two_hits) two_hits
           example_metadata); try reflexivity.
  - repeat constructor; by eexists.
  - unfold example_metadata. intros chunk_id rec [_ <-]%lookup_singleton_Some.
    by eexists.
Defined.

(** The same run through the general form of the loop. *)
Lemma retrieve_chunks_entries_witness :
  retrieve_chunks two_hits_world "A?"
  = ([Unpacked two_hits_bytes], Return ["A."; "[No text for id: chunk_7]"])
  ∧ List.length (entry_for example_metadata <$> omap hit_id two_hits)
    = List.length (List.filter passes_guard two_hits).
Proof.
  apply (retrieve_chunks_entries two_hits_world "A?" [0; 0; 0]%Z
           (msgpack_response two_hits_bytes) (VList two_hits) two_hits
           example_metadata);
    try reflexivity.
  repeat constructor; intros _; by eexists.
Defined.

(** The guard at work: a result item that is a map gives no entry. *)
Lemma retrieve_chunks_skips_map_hit :
  ∃ chunks,
    retrieve_chunks map_hit_world "A?" = ([Unpacked map_hit_bytes], Return chunks)
    ∧ List.length chunks ≠ List.length map_hit
    ∧ is_Some (example_metadata !! "chunk_0").
Proof. exists []. split; [reflexivity|]. split; [discriminate|]. by eexists. Qed.

(** C10: an item of one element passes the guard and [item[1]] raises. *)
Lemma retrieve_chunks_score_only_raises :
  Forall (λ item, passes_guard item = true) score_only
  ∧ map_items score_only_world example_metadata score_only []
    = Raise (Exn IndexError "list index out of range")
  ∧ retrieve_chunks score_only_world "A?"
    = ([Unpacked score_only_bytes], Raise (Exn IndexError "list index out of range")).
Proof. split; [by repeat constructor|]. split; reflexivity. Qed.

Lemma retrieve_chunks_not_msgpack_witness :
  retrieve_chunks html_world "A?"
  = ([Printed "DEBUG: Non-msgpack response from Endee";
      Printed (take 300 (text html_response))], Return []).
Proof.
  apply (retrieve_chunks_not_msgpack html_world "A?" [0; 0; 0]%Z html_response);
    reflexivity.
Defined.

(** C4, as stated, fails: a response that is not MessagePack and not a
    success raises. *)
Lemma retrieve_chunks_failure_raises :
  contains "application/msgpack"
    (default "" (content_type_header failure_response)) = false
  ∧ retrieve_chunks failure_world "A?"
    = ([], Raise (Exn RuntimeError "Search failed: index not found")).
Proof. split; reflexivity. Qed.

(** C3, as stated, fails: with one chunk of empty text the context is empty
    and the generator is called all the same. *)
Lemma generate_on_empty_context :
  retrieve_chunks empty_text_world "A?" = ([Unpacked one_hit_bytes], Return [""])
  ∧ build_context [""] = ""
  ∧ (run_rag empty_text_world "A?").1
    = [Unpacked one_hit_bytes; Generated (build_prompt "" "A?")].
Proof. split; [reflexivity|]. split; reflexivity. Qed.

Lemma placeholder_llm_fallback_witness :
  placeholder_llm ("Context:" +:+ nl +:+ "Paris. Question: where?") = Return FALLBACK.
Proof. apply placeholder_llm_fallback. right. reflexivity. Defined.

Lemma placeholder_llm_answer_witness :
  (∃ context_block question_block,
      parse_prompt (build_prompt PARIS "Where?") = Return (context_block, question_block)
      ∧ let first_sentence :=
          with_period (strip (before_first ". " context_block)) in
        let answer := answer_of first_sentence question_block in
        placeholder_llm (build_prompt PARIS "Where?") = Return answer
        ∧ contains first_sentence answer = true
        ∧ contains question_block answer = true)
  ∧ (let answer := answer_of PARIS_FIRST (strip padded_question) in
     compose [PARIS] padded_question
     = ([Generated (build_prompt PARIS padded_question)], Return answer)
     ∧ contains PARIS_FIRST answer = true
     ∧ contains (strip padded_question) answer = true).
Proof.
  apply (placeholder_llm_answer (build_prompt PARIS "Where?") padded_question);
    reflexivity.
Defined.

(** C6, as stated, fails: the answer holds the trimmed question, not the
    question as asked; and the first sentence is trimmed before the period
    is appended. *)
Lemma answer_omits_padded_question :
  (contains CONTEXT_MARK padded_question = false
   ∧ contains QUESTION_MARK padded_question = false
   ∧ contains ANSWER_MARK padded_question = false
   ∧ ∃ t answer, compose [PARIS] padded_question = (t, Return answer)
       ∧ contains PARIS_FIRST answer = true
       ∧ contains padded_question answer = false)
  ∧ (before_first ". " "Stop . Go" = "Stop "
     ∧ ∃ answer, placeholder_llm (build_prompt "Stop . Go" "Why?") = Return answer
         ∧ contains "Stop." answer = true
         ∧ contains "Stop ." answer = false).
Proof.
  split.
  - split; [reflexivity|]. split; [reflexivity|]. split; [reflexivity|].
    eexists _, _. split; [reflexivity|]. split; reflexivity.
  - split; [reflexivity|]. eexists. split; [reflexivity|]. split; reflexivity.
Qed.

Lemma prompt_round_trip_witness :
  parse_prompt (build_prompt (" " +:+ PARIS) padded_question)
  = Return (strip (" " +:+ PARIS), strip padded_question).
Proof. apply prompt_round_trip; reflexivity. Defined.

(** C7, as stated, fails: a context and a question without any marker whose
    prompt splits before the marker of the template. *)
Lemma prompt_round_trip_straddle :
  contains CONTEXT_MARK straddling_context = false
  ∧ contains QUESTION_MARK straddling_context = false
  ∧ contains ANSWER_MARK straddling_context = false
  ∧ contains CONTEXT_MARK "Why?" = false
  ∧ contains QUESTION_MARK "Why?" = false
  ∧ contains ANSWER_MARK "Why?" = false
  ∧ parse_prompt (build_prompt straddling_context "Why?")
    = Return ("Heading", "Question:" +:+ nl +:+ "Why?")
  ∧ parse_prompt (build_prompt straddling_context "Why?")
    ≠ Return (strip straddling_context, strip "Why?").
Proof. repeat (split; [reflexivity|]). discriminate. Qed.

Lemma ingest_id_space_witness :
  ∃ vectors (metadata : metadata_map),
    build_payload ["A."; "B."] [[1%Z]; [2%Z]] = (vectors, metadata)
    ∧ id <$> vectors = chunk_id_of <$> seq 0 (List.length ["A."; "B."])
    ∧ NoDup (id <$> vectors)
    ∧ dom metadata = list_to_set (id <$> vectors)
    ∧ ∀ i chunk, ["A."; "B."] !! i = Some chunk →
        ∃ emb, [[1%Z]; [2%Z]] !! i = Some emb
          ∧ vectors !! i = Some (Entry (chunk_id_of i) emb)
          ∧ metadata !! chunk_id_of i = Some {["text" := chunk]}.
Proof. apply (ingest_id_space ["A."; "B."] [[1%Z]; [2%Z]]). reflexivity. Defined.

End examples.

(** * More facts *)

(** ** The mapping loop and the payload *)

Section retriever_more.
Import PyStr Search SearchMain Pipeline App.

Lemma map_items_mappable w (metadata : metadata_map) items acc :
  forallb mappable items = true →
  map_items w metadata items acc
  = Return (acc ++ omap (entry_of w metadata) items).
Proof.
  revert acc. induction items as [|item items IH]; intros acc Hall.
  - cbn. by rewrite app_nil_r.
  - cbn [forallb] in Hall. apply andb_true_iff in Hall as [Hitem Hall].
    cbn [map_items omap list_omap].
    destruct item as [| | | | | |[|x [|[] rest]]|];
      try discriminate Hitem; cbn; try (by rewrite IH);
      try (rewrite IH by done; by rewrite <- app_assoc).
    unfold entry_for. destruct (metadata !! s) as [rec|]; cbn.
    + destruct (rec !! "text"); rewrite IH by done; by rewrite <- app_assoc.
    + rewrite IH by done. by rewrite <- app_assoc.
Qed.

Lemma map_items_unmappable w (metadata : metadata_map) items acc :
  forallb mappable items = false →
  ∃ e, map_items w metadata items acc = Raise e
       ∧ (exn_cls e = IndexError ∨ exn_cls e = TypeError).
Proof.
  revert acc. induction items as [|item items IH]; intros acc Hall; [done|].
  cbn [forallb] in Hall. destruct (mappable item) eqn:Hitem.
  - cbn [andb] in Hall. cbn [map_items].
    destruct item as [| | | | | |[|x [|[] rest]]|];
      try discriminate Hitem; cbn; try (by apply IH).
    destruct (metadata !! s) as [rec|]; cbn; [destruct (rec !! "text")|];
      by apply IH.
  - clear Hall IH.
    destruct item as [| | | | | |[|x [|[] rest]]|]; try discriminate Hitem;
      cbn; eexists; (split; [reflexivity|]); cbn; auto.
Qed.

Lemma entries_length w (metadata : metadata_map) items :
  forallb mappable items = true →
  List.length (omap (entry_of w metadata) items)
  = List.length (List.filter passes_guard items).
Proof.
  induction items as [|item items IH]; [done|]. cbn [forallb].
  intros [Hitem Hall]%andb_true_iff. specialize (IH Hall).
  destruct item as [| | | | | |[|x [|[] rest]]|];
    try discriminate Hitem; cbn; by rewrite ?IH.
Qed.

(** X1: The loop gets through exactly the lists of mappable items, with one
    entry for each item that passes the guard: the text, or the sentinel (also
    for an id that is not a [str]). On any other list it raises [IndexError]
    or [TypeError]. *)
Theorem map_items_outcome w (metadata : metadata_map) items acc :
  match map_items w metadata items acc with
  | Return out =>
      forallb mappable items = true
      ∧ out = acc ++ omap (entry_of w metadata) items
      ∧ List.length out
        = List.length acc + List.length (List.filter passes_guard items)
  | Raise e =>
      forallb mappable items = false
      ∧ (exn_cls e = IndexError ∨ exn_cls e = TypeError)
  end.
Proof.
  destruct (forallb mappable items) eqn:Hall.
  - rewrite map_items_mappable by done. split; [done|]. split; [done|].
    by rewrite length_app, entries_length.
  - destruct (map_items_unmappable w metadata items acc Hall) as (e & -> & He).
    done.
Qed.

(** [dict_get] finds the last entry with the key. *)
Lemma dict_get_last entries name default :
  dict_get entries name default
  = from_option Datatypes.id default (last_value entries name).
Proof.
  unfold last_value. revert default.
  induction entries as [|[k v] entries IH]; intros default; [done|].
  cbn [dict_get List.filter fst]. rewrite IH.
  destruct (key_is k name); [|done].
  destruct (List.filter _ entries) as [|kv l] eqn:Hf; [done|].
  rewrite last_cons_cons. destruct (last (kv :: l)) eqn:Hl; [done|].
  by apply last_None in Hl.
Qed.

(** X2: In a map payload the results are under "results", and under "dense"
    only when there is no "results" key; a payload that is neither a list nor
    a map holds no results. *)
Theorem results_of_payload payload :
  results_of payload
  = match payload with
    | VList l => VList l
    | VMap entries =>
        match last_value entries "results", last_value entries "dense" with
        | Some r, _ => r
        | None, Some d => d
        | None, None => VList []
        end
    | _ => VList []
    end.
Proof.
  destruct payload; try done. cbn [results_of]. rewrite !dict_get_last.
  by destruct (last_value entries "results"), (last_value entries "dense").
Qed.

End retriever_more.

(** ** Failures of retrieval, and what the endpoint makes of them *)

Section failures.
Import PyStr Search SearchMain Pipeline App.

Lemma ask_of_raise w question t e :
  retrieve_chunks w question = (t, Raise e) →
  ask w question = (t, Return (Error (exn_msg e) NOTE)).
Proof. intros H. unfold ask, run_rag. by rewrite H. Qed.

(** X3: A response whose status is not 200 raises [RuntimeError] with the text
    of the response, before anything is printed or decoded; the endpoint
    returns that message. *)
Theorem retrieve_chunks_bad_status w query v resp :
  encode w query = Return v →
  post w v = Return resp →
  status_code resp ≠ 200%Z →
  retrieve_chunks w query
  = ([], Raise (Exn RuntimeError ("Search failed: " +:+ text resp)))
  ∧ ask w query = ([], Return (Error ("Search failed: " +:+ text resp) NOTE)).
Proof.
  intros He Hp Hs.
  assert (retrieve_chunks w query
          = ([], Raise (Exn RuntimeError ("Search failed: " +:+ text resp)))) as H.
  { unfold retrieve_chunks. rewrite He. cbn. rewrite Hp. cbn.
    by rewrite bool_decide_true. }
  split; [done|]. by rewrite (ask_of_raise _ _ _ _ H).
Qed.

(** X4: A MessagePack response that the decoder rejects makes
    [retrieve_chunks] raise the exception of the decoder, whatever the
    metadata file is; the endpoint returns its message. *)
Theorem retrieve_chunks_undecodable w query v resp e :
  encode w query = Return v →
  post w v = Return resp →
  status_code resp = 200%Z →
  contains "application/msgpack" (default "" (content_type_header resp)) = true →
  unpackb w (content resp) = Raise e →
  retrieve_chunks w query = ([Unpacked (content resp)], Raise e)
  ∧ ask w query = ([Unpacked (content resp)], Return (Error (exn_msg e) NOTE)).
Proof.
  intros He Hp Hs Hct Hu.
  assert (retrieve_chunks w query = ([Unpacked (content resp)], Raise e)) as H.
  { unfold retrieve_chunks. rewrite He. cbn. rewrite Hp. cbn.
    rewrite Hs, Hct. cbn. by rewrite Hu. }
  split; [done|]. by rewrite (ask_of_raise _ _ _ _ H).
Qed.

(** X5: Without a metadata file a decoded response raises [FileNotFoundError],
    whatever the payload is, also when it holds no result at all. *)
Theorem retrieve_chunks_no_metadata w query v resp payload :
  encode w query = Return v →
  post w v = Return resp →
  status_code resp = 200%Z →
  contains "application/msgpack" (default "" (content_type_header resp)) = true →
  unpackb w (content resp) = Return payload →
  metadata_file w = None →
  let e := Exn FileNotFoundError ("Metadata not found: " +:+ metadata_path w) in
  retrieve_chunks w query = ([Unpacked (content resp)], Raise e)
  ∧ ask w query = ([Unpacked (content resp)], Return (Error (exn_msg e) NOTE)).
Proof.
  intros He Hp Hs Hct Hu Hm e.
  assert (retrieve_chunks w query = ([Unpacked (content resp)], Raise e)) as H.
  { unfold retrieve_chunks, load_metadata. rewrite He. cbn. rewrite Hp. cbn.
    rewrite Hs, Hct. cbn. rewrite Hu. cbn. by rewrite Hm. }
  split; [done|]. by rewrite (ask_of_raise _ _ _ _ H).
Qed.

(** X6: A decoded payload without results (an empty list, a map without the
    two keys, a scalar) gives no chunk when the metadata file loads, and the
    endpoint answers with the fixed message, without calling the generator. *)
Theorem ask_no_results w query v resp payload (metadata : metadata_map) :
  encode w query = Return v →
  post w v = Return resp →
  status_code resp = 200%Z →
  contains "application/msgpack" (default "" (content_type_header resp)) = true →
  unpackb w (content resp) = Return payload →
  results_of payload = VList [] →
  metadata_file w = Some (Return metadata) →
  retrieve_chunks w query = ([Unpacked (content resp)], Return [])
  ∧ ask w query = ([Unpacked (content resp)], Return (Answer query NO_CONTEXT)).
Proof.
  intros He Hp Hs Hct Hu Hr Hm.
  assert (retrieve_chunks w query = ([Unpacked (content resp)], Return [])) as H.
  { unfold retrieve_chunks, load_metadata. rewrite He. cbn. rewrite Hp. cbn.
    rewrite Hs, Hct. cbn. rewrite Hu. cbn. by rewrite Hm, Hr. }
  split; [done|]. unfold ask, run_rag. by rewrite H.
Qed.

(** X7: What one call of [retrieve_chunks] does besides returning: nothing, or
    the two diagnostic lines (and then it returns no chunk), or one call of
    the decoder. It never prints and decodes in the same call. *)
Theorem retrieve_chunks_trace w query :
  let '(t, r) := retrieve_chunks w query in
  t = []
  ∨ (∃ resp, t = [Printed "DEBUG: Non-msgpack response from Endee";
                  Printed (take 300 (text resp))]
             ∧ r = Return [])
  ∨ (∃ content, t = [Unpacked content]).
Proof.
  unfold retrieve_chunks, load_metadata.
  destruct (encode w query) as [v|e]; cbn; [|by left].
  destruct (post w v) as [resp|e]; cbn; [|by left].
  case_bool_decide; cbn; [by left|].
  destruct (contains _ _); cbn; [|right; left; by exists resp].
  destruct (unpackb w _) as [payload|e]; cbn; [|right; right; by eexists].
  destruct (metadata_file w) as [[metadata|e]|]; cbn;
    [|right; right; by eexists..].
  destruct (iterate _) as [items|e]; cbn; [|right; right; by eexists].
  destruct (map_items w metadata items []); right; right; by eexists.
Qed.

End failures.

(** ** The composer never fails *)

Section composer_more.
Import PyStr Search Pipeline.

Lemma endswith_app p s : endswith p (s +:+ p) = true.
Proof.
  induction s as [|c s IH].
  - rewrite app_empty_l. destruct p; [done|]. cbn [endswith].
    by rewrite String.eqb_refl.
  - rewrite app_String. cbn [endswith]. rewrite IH. apply orb_true_r.
Qed.

Lemma with_period_ends s : endswith "." (with_period s) = true.
Proof.
  unfold with_period. destruct (endswith "." s) eqn:H; [done|apply endswith_app].
Qed.

Lemma placeholder_llm_template_answer context question :
  ∃ first_sentence question_block,
    placeholder_llm (build_prompt context question)
    = Return (answer_of first_sentence question_block)
    ∧ endswith "." first_sentence = true
    ∧ answer_of first_sentence question_block ≠ FALLBACK.
Proof.
  destruct (build_prompt_has_markers context question) as [Hc Hq].
  destruct (parse_prompt_returns _ Hq) as (p0 & p1 & _ & Hparse).
  eexists _, _. split; [|split].
  - unfold placeholder_llm. rewrite Hc, Hq, Hparse. cbn.
    by rewrite first_sentence_of_spec.
  - apply with_period_ends.
  - done.
Qed.

(** X8: On a prompt made by [build_prompt] the generator never falls back and
    never raises: it returns the answer sentence, and the first sentence in it
    ends with a period. *)
Theorem placeholder_llm_on_template context question :
  ∃ first_sentence question_block,
    placeholder_llm (build_prompt context question)
    = Return (answer_of first_sentence question_block)
    ∧ endswith "." first_sentence = true
    ∧ answer_of first_sentence question_block ≠ FALLBACK.
Proof. apply placeholder_llm_template_answer. Qed.

(** X9: [run_rag] raises exactly what retrieval raises; when retrieval
    returns, it returns the fixed message (no chunk) or an answer sentence. *)
Theorem run_rag_outcome w question :
  match retrieve_chunks w question with
  | (t, Raise e) => run_rag w question = (t, Raise e)
  | (t, Return []) => run_rag w question = (t, Return NO_CONTEXT)
  | (t, Return (c :: cs)) =>
      ∃ first_sentence question_block,
        run_rag w question
        = (t ++ [Generated (build_prompt (build_context (c :: cs)) question)],
           Return (answer_of first_sentence question_block))
        ∧ endswith "." first_sentence = true
  end.
Proof.
  unfold run_rag, mbind, run_bind.
  destruct (retrieve_chunks w question) as [t [[|c cs]|e]]; [| |done].
  - cbn. by rewrite app_nil_r.
  - destruct (placeholder_llm_template_answer (build_context (c :: cs)) question)
      as (fs & qb & Hllm & Hfs & _).
    exists fs, qb. split; [|done]. unfold compose, generate.
    unfold mbind, run_bind, emit, lift. by rewrite Hllm.
Qed.

End composer_more.

(** ** The command-line programs *)

Section mains.
Import PyStr Search SearchMain Pipeline.

Lemma print_chunks_spec i chunks :
  ∃ lines,
    print_chunks i chunks = (lines, Return tt)
    ∧ List.length lines = 3 * List.length chunks
    ∧ ∀ k text, chunks !! k = Some text →
        lines !! (3 * k) = Some (Printed ("--- Chunk " +:+ pretty (i + k) +:+ " ---"))
        ∧ lines !! (3 * k + 1) = Some (Printed text)
        ∧ lines !! (3 * k + 2) = Some (Printed "").
Proof.
  revert i. induction chunks as [|text chunks IH]; intros i.
  - exists []. by repeat split.
  - destruct (IH (S i)) as (lines & Hrun & Hlen & Hlines).
    exists ([Printed ("--- Chunk " +:+ pretty i +:+ " ---"); Printed text; Printed ""]
            ++ lines).
    split; [|split].
    + cbn [print_chunks]. unfold mbind, run_bind, print, emit. by rewrite Hrun.
    + cbn. rewrite Hlen. lia.
    + intros [|k] text' Hk.
      * injection Hk as <-. rewrite Nat.add_0_r. by repeat split.
      * destruct (Hlines k text' Hk) as (H0 & H1 & H2).
        replace (i + S k) with (S i + k) by lia.
        replace (3 * S k) with (3 + 3 * k) by lia.
        repeat split; [exact H0|exact H1|exact H2].
Qed.

(** X10: [main] of [search.py] raises only when it has to read the query from
    the terminal and reading fails; nothing has been printed then. Whatever
    retrieval does, it does not make [main] raise. *)
Theorem search_main_raises c w e :
  (SearchMain.main c w).2 = Raise e
  ↔ List.length (argv c) ≤ 1 ∧ input c "Query: " = Raise e.
Proof.
  unfold SearchMain.main, get_query.
  assert (∀ query,
    ((if negb (Ingest.truthy query) then print "Error: empty query."
      else match retrieve_chunks w query with
           | (t, Raise e0) => (t, Return tt);; print ("Error: " +:+ exn_msg e0)
           | (t, Return chunks) =>
               (t, Return tt);; print_chunks 1 chunks;;
               print ("Returned " +:+ pretty (List.length chunks) +:+ " chunk(s).")
           end) : run unit).2 = Return tt) as Hbody.
  { intros query. destruct (negb (Ingest.truthy query)); [done|].
    destruct (retrieve_chunks w query) as [t [chunks|e0]]; [|done].
    destruct (print_chunks_spec 1 chunks) as (lines & Hrun & _).
    unfold mbind, run_bind. by rewrite Hrun. }
  case_bool_decide as Hargv.
  - unfold lift, mbind, run_bind.
    specialize (Hbody (strip (join " " (List.skipn 1 (argv c))))).
    destruct (if negb _ then _ else _) as [t r]. cbn in *. subst r.
    split; [done|]. intros [? _]. lia.
  - unfold lift. destruct (input c "Query: ") as [line|e0] eqn:Hin.
    + unfold mbind at 2. unfold outcome_bind, mret, outcome_ret.
      unfold mbind, run_bind. specialize (Hbody (strip line)).
      destruct (if negb _ then _ else _) as [t r]. cbn in *. subst r.
      split; [done|]. by intros [_ ?].
    + cbn. split.
      * intros [= ->]. split; [lia|done].
      * by intros [_ [= ->]].
Qed.

(** X11: With a query and the chunks retrieval returns for it, [main] prints,
    after what retrieval printed, three lines for each chunk (numbered from 1,
    the text, an empty line) and the count. *)
Theorem search_main_prints c w query t chunks :
  get_query c = Return query →
  query ≠ "" →
  retrieve_chunks w query = (t, Return chunks) →
  ∃ lines,
    SearchMain.main c w
    = (t ++ lines
         ++ [Printed ("Returned " +:+ pretty (List.length chunks) +:+ " chunk(s).")],
       Return tt)
    ∧ List.length lines = 3 * List.length chunks
    ∧ ∀ k text, chunks !! k = Some text →
        lines !! (3 * k) = Some (Printed ("--- Chunk " +:+ pretty (S k) +:+ " ---"))
        ∧ lines !! (3 * k + 1) = Some (Printed text)
        ∧ lines !! (3 * k + 2) = Some (Printed "").
Proof.
  intros Hq Hne Hr.
  destruct (print_chunks_spec 1 chunks) as (lines & Hrun & Hlen & Hlines).
  exists lines. split; [|split; [done|]].
  - unfold SearchMain.main. rewrite Hq. unfold lift, mbind, run_bind.
    destruct query; [done|]. cbn [Ingest.truthy negb]. rewrite Hr, Hrun.
    by cbn.
  - intros k text Hk. apply (Hlines k text Hk).
Qed.

(** X12: [main] of [rag_pipeline.py] raises only when reading the question
    from the terminal fails; an exception of the pipeline becomes one printed
    line. *)
Theorem pipeline_main_raises c w e :
  (PipelineMain.main c w).2 = Raise e
  ↔ List.length (argv c) ≤ 1 ∧ input c "Question: " = Raise e.
Proof.
  unfold PipelineMain.main.
  assert (∀ question,
    ((if negb (Ingest.truthy question) then print "Error: empty question."
      else match run_rag w question with
           | (t, Return answer) => (t, Return tt);; print answer
           | (t, Raise e0) => (t, Return tt);; print ("Error: " +:+ exn_msg e0)
           end) : run unit).2 = Return tt) as Hbody.
  { intros question. destruct (negb (Ingest.truthy question)); [done|].
    by destruct (run_rag w question) as [t [answer|e0]]. }
  case_bool_decide as Hargv.
  - unfold mbind, run_bind, mret, run_ret.
    specialize (Hbody (strip (join " " (List.skipn 1 (argv c))))).
    destruct (if negb _ then _ else _) as [t r]. cbn in *. subst r.
    split; [done|]. intros [? _]. lia.
  - unfold lift. destruct (input c "Question: ") as [line|e0] eqn:Hin.
    + unfold mbind, run_bind, mret, run_ret. specialize (Hbody (strip line)).
      destruct (if negb _ then _ else _) as [t r]. cbn in *. subst r.
      split; [done|]. by intros [_ ?].
    + cbn. split.
      * intros [= ->]. split; [lia|done].
      * by intros [_ [= ->]].
Qed.

End mains.

(** ** More on the chunker *)

Section chunker_more.
Import PyStr Ingest IngestMain.

Lemma all_space_app a b : all_space (a +:+ b) = all_space a && all_space b.
Proof.
  induction a as [|c a IH]; [done|]. rewrite app_String. cbn [all_space].
  by rewrite IH, andb_assoc.
Qed.

Lemma all_space_weave p seps ps :
  List.length seps = List.length ps →
  Forall (λ sep, sep ≠ "" ∧ all_space sep = true) seps →
  all_space (weave p (zip seps ps)) = forallb all_space (p :: ps).
Proof.
  intros Hlen Hseps. revert p ps Hlen.
  induction Hseps as [|sep seps [_ Hsep] _ IH]; intros p [|q ps] Hlen;
    try discriminate Hlen.
  - cbn. by rewrite andb_true_r.
  - cbn [zip zip_with weave forallb]. rewrite !all_space_app, Hsep, IH.
    + done.
    + by injection Hlen.
Qed.

Lemma pieces_all_space text :
  all_space text = forallb all_space (sentence_end_split text).
Proof.
  destruct (sentence_end_split_spec text)
    as (p & ps & seps & -> & Hlen & -> & Hseps & _).
  by apply all_space_weave.
Qed.

Lemma sentences_of_nil text : sentences_of text = [] ↔ all_space text = true.
Proof.
  rewrite sentences_of_pieces, pieces_all_space.
  induction (sentence_end_split text) as [|p ps IH]; [done|].
  cbn. destruct (all_space p); cbn; [exact IH|done].
Qed.

Lemma chunks_length text :
  List.length (split_into_chunks text) = (List.length (sentences_of text) + 2) / 3.
Proof.
  unfold split_into_chunks.
  destruct (chunk_loop_groups (sentences_of text) 0 []) as (groups & -> & _ & _ & Hlen).
  cbn [app]. by rewrite length_map, Hlen, Nat.sub_0_r.
Qed.

Lemma chunks_nil_iff text : split_into_chunks text = [] ↔ all_space text = true.
Proof.
  rewrite <- sentences_of_nil. pose proof (chunks_length text) as Hlen.
  split.
  - intros H. rewrite H in Hlen. cbn [List.length] in Hlen.
    destruct (sentences_of text) as [|s ss]; [done|]. exfalso.
    cbn [List.length] in Hlen.
    assert (1 ≤ (S (List.length ss) + 2) / 3); [|lia].
    apply Nat.div_le_lower_bound; lia.
  - intros H. rewrite H in Hlen. by destruct (split_into_chunks text).
Qed.

(** X13: A text gives no chunk exactly when it is empty or whitespace only. *)
Theorem split_into_chunks_empty_iff text :
  split_into_chunks text = [] ↔ all_space text = true.
Proof. apply chunks_nil_iff. Qed.

Lemma strip_fixed_rstrip s : strip s = s → rstrip s = s.
Proof. intros H. rewrite <- H. apply rstrip_idemp. Qed.

Lemma rstrip_app a b : rstrip b = b → b ≠ "" → rstrip (a +:+ b) = a +:+ b.
Proof.
  intros Hb Hne. induction a as [|c a IH]; [done|].
  rewrite app_String. cbn [rstrip]. rewrite IH.
  destruct (a +:+ b) eqn:Hab; [|done]. by destruct a, b.
Qed.

Lemma join_strip g :
  g ≠ [] → Forall sentence_like g →
  strip (join " " g) = join " " g ∧ join " " g ≠ "".
Proof.
  intros Hne Hall.
  destruct (join_head_sentence_like g Hne Hall) as [Hl Hj]. split; [|done].
  unfold strip. rewrite Hl. clear Hl Hj.
  induction g as [|x g IH]; [done|].
  apply Forall_cons in Hall as [(Hx & Hs & _) Hall].
  destruct g as [|y g]; [by apply strip_fixed_rstrip|].
  rewrite join_cons, app_assoc_str. apply rstrip_app; [by apply IH|].
  by apply (join_head_sentence_like (y :: g)).
Qed.

(** The groups of the sentences keep the shape of the sentences. *)
Lemma groups_shape (groups : list (list string)) :
  Forall sentence_like (List.concat groups) →
  all_but_last_end (List.concat groups) →
  Forall (λ g, Forall sentence_like g ∧ all_but_last_end g) groups.
Proof.
  induction groups as [|g groups IH]; [done|]. cbn [List.concat].
  intros [Hg Hgs]%Forall_app [Eg Egs]%all_but_last_end_app.
  constructor; [done|by apply IH].
Qed.

Lemma chunks_groups text :
  ∃ groups : list (list string),
    split_into_chunks text = List.map (join " ") groups
    ∧ List.concat groups = sentences_of text
    ∧ Forall (λ g, 1 ≤ List.length g ≤ 3) groups
    ∧ Forall (λ g, Forall sentence_like g ∧ all_but_last_end g) groups.
Proof.
  destruct (chunk_loop_groups (sentences_of text) 0 [])
    as (groups & Hloop & Hcat & Hall & _).
  change (List.skipn 0 (sentences_of text)) with (sentences_of text) in Hcat.
  destruct (sentences_of_shape text) as [Hshape Hend].
  exists groups. repeat split; try done.
  apply groups_shape; by rewrite Hcat.
Qed.

(** X14: Every chunk is a non-empty text without whitespace at either end, and
    chunking a chunk again gives back that chunk alone. *)
Theorem split_into_chunks_stable text :
  Forall (λ chunk, chunk ≠ "" ∧ strip chunk = chunk
                   ∧ split_into_chunks chunk = [chunk])
         (split_into_chunks text).
Proof.
  destruct (chunks_groups text) as (groups & -> & _ & Hlen & Hshape).
  clear text. induction groups as [|g groups IH]; [constructor|].
  apply Forall_cons in Hlen as [Hg Hlen].
  apply Forall_cons in Hshape as [[Hsl Hend] Hshape].
  cbn [List.map]. constructor; [|by apply IH].
  assert (g ≠ []) as Hne by (destruct g; [cbn in Hg; lia|done]).
  destruct (join_strip g Hne Hsl) as [Hs Hj]. split; [done|]. split; [done|].
  unfold split_into_chunks. rewrite sentences_of_join by done.
  destruct (chunk_loop_groups g 0 []) as (groups' & -> & Hcat & _ & Hn).
  cbn [app]. change (List.skipn 0 g) with g in Hcat. rewrite Nat.sub_0_r in Hn.
  assert ((List.length g + 2) / 3 = 1) as Hone.
  { destruct g as [|? [|? [|? [|? ?]]]]; cbn in Hg; try lia; reflexivity. }
  rewrite Hone in Hn. destruct groups' as [|g' [|? ?]]; try discriminate Hn.
  cbn in Hcat. rewrite app_nil_r in Hcat. by subst g'.
Qed.

Lemma nonspace_app a b : nonspace (a +:+ b) = nonspace a +:+ nonspace b.
Proof.
  induction a as [|c a IH]; [done|]. rewrite app_String. cbn [nonspace].
  destruct (isspace c); [done|]. by rewrite app_String, IH.
Qed.

Lemma nonspace_all_space s : all_space s = true → nonspace s = "".
Proof.
  induction s as [|c s IH]; [done|]. cbn [all_space nonspace].
  destruct (isspace c); [exact IH|done].
Qed.

Lemma nonspace_lstrip s : nonspace (lstrip s) = nonspace s.
Proof.
  induction s as [|c s IH]; [done|]. cbn [lstrip nonspace].
  destruct (isspace c) eqn:Hc; [done|]. cbn [nonspace]. by rewrite Hc.
Qed.

Lemma nonspace_rstrip s : nonspace (rstrip s) = nonspace s.
Proof.
  induction s as [|c s IH]; [done|]. cbn [rstrip nonspace].
  destruct (rstrip s) as [|d r] eqn:Hr.
  - cbn [nonspace] in IH. rewrite <- IH.
    destruct (isspace c) eqn:Hc; [done|]. cbn [nonspace]. by rewrite Hc.
  - cbn [nonspace]. cbn [nonspace] in IH. by rewrite IH.
Qed.

Lemma nonspace_strip s : nonspace (strip s) = nonspace s.
Proof. unfold strip. by rewrite nonspace_rstrip, nonspace_lstrip. Qed.

Lemma nonspace_weave p seps ps :
  List.length seps = List.length ps →
  Forall (λ sep, sep ≠ "" ∧ all_space sep = true) seps →
  nonspace (weave p (zip seps ps)) = nonspace_all (p :: ps).
Proof.
  intros Hlen Hseps. revert p ps Hlen.
  induction Hseps as [|sep seps [_ Hsep] _ IH]; intros p [|q ps] Hlen;
    try discriminate Hlen.
  - cbn. by rewrite app_empty_r.
  - cbn [zip zip_with weave]. rewrite !nonspace_app, (nonspace_all_space sep Hsep).
    rewrite app_empty_l, IH; [done|by injection Hlen].
Qed.

Lemma nonspace_all_cons x l : nonspace_all (x :: l) = nonspace x +:+ nonspace_all l.
Proof. done. Qed.

Lemma nonspace_all_kept pieces :
  nonspace_all (strip <$> List.filter (λ p, negb (all_space p)) pieces)
  = nonspace_all pieces.
Proof.
  induction pieces as [|p ps IH]; [done|]. cbn [List.filter].
  rewrite nonspace_all_cons. destruct (all_space p) eqn:Hp; cbn [negb].
  - by rewrite IH, (nonspace_all_space p Hp).
  - rewrite fmap_cons, nonspace_all_cons. by rewrite IH, nonspace_strip.
Qed.

Lemma nonspace_join g : nonspace (join " " g) = nonspace_all g.
Proof.
  induction g as [|x g IH]; [done|]. rewrite nonspace_all_cons.
  destruct g as [|y g].
  - cbn. by rewrite app_empty_r.
  - by rewrite join_cons, !nonspace_app, IH.
Qed.

Lemma nonspace_all_app l1 l2 :
  nonspace_all (l1 ++ l2) = nonspace_all l1 +:+ nonspace_all l2.
Proof.
  induction l1 as [|x l1 IH]; [done|].
  rewrite <- app_comm_cons, !nonspace_all_cons. by rewrite IH, app_assoc_str.
Qed.

Lemma nonspace_all_groups (groups : list (list string)) :
  nonspace_all (List.map (join " ") groups) = nonspace_all (List.concat groups).
Proof.
  induction groups as [|g groups IH]; [done|]. cbn [List.map List.concat].
  by rewrite nonspace_all_app, nonspace_all_cons, IH, nonspace_join.
Qed.

(** X15: Chunking loses no text: the characters of the chunks that are not
    whitespace are those of the text, in the same order. *)
Theorem split_into_chunks_keeps_text text :
  nonspace_all (split_into_chunks text) = nonspace text.
Proof.
  destruct (chunks_groups text) as (groups & -> & Hcat & _).
  rewrite nonspace_all_groups, Hcat, sentences_of_pieces, nonspace_all_kept.
  destruct (sentence_end_split_spec text)
    as (p & ps & seps & -> & Hlen & Htext & Hseps & _).
  rewrite Htext. symmetry. by apply nonspace_weave.
Qed.

End chunker_more.

(** ** Ingestion *)

Section ingestion_more.
Import PyStr Search SearchMain Payload IngestMain.

Lemma build_payload_facts chunks embeddings :
  ∃ md : metadata_map,
    build_payload chunks embeddings
    = (imap (λ j p, Entry (chunk_id_of j) p.2) (zip chunks embeddings), md)
    ∧ (∀ j p, zip chunks embeddings !! j = Some p →
         md !! chunk_id_of j = Some {["text" := p.1]})
    ∧ (∀ k, k ∉ chunk_id_of <$> seq 0 (List.length (zip chunks embeddings)) →
         md !! k = None).
Proof.
  unfold build_payload.
  destruct (payload_loop_spec 0 (zip chunks embeddings) [] ∅)
    as (md & -> & Hin & Hout).
  exists md. split; [done|]. split; [exact Hin|].
  intros k Hk. rewrite Hout; [done|]. intros j Hj ->. apply Hk.
  apply list_elem_of_fmap. exists j. split; [done|]. apply elem_of_seq. lia.
Qed.

Lemma build_payload_dom chunks embeddings :
  dom (build_payload chunks embeddings).2
  = list_to_set (id <$> (build_payload chunks embeddings).1).
Proof.
  destruct (build_payload_facts chunks embeddings) as (md & -> & Hin & Hout).
  cbn [fst snd]. change (λ j p, Entry (chunk_id_of j) p.2)
    with (λ j (p : string * Search.vector), Entry (chunk_id_of (0 + j)) p.2).
  rewrite imap_ids. apply set_eq. intros k.
  rewrite elem_of_dom, elem_of_list_to_set. split.
  - intros Hk.
    destruct (decide (k ∈ chunk_id_of <$> seq 0 (List.length (zip chunks embeddings))))
      as [|Hno]; [done|].
    rewrite Hout in Hk by done. by destruct Hk.
  - intros (j & -> & Hj%elem_of_seq)%list_elem_of_fmap.
    destruct (lookup_lt_is_Some_2 (zip chunks embeddings) j) as [p Hp]; [lia|].
    exists {["text" := p.1]}. by apply Hin.
Qed.

Lemma build_payload_min chunks embeddings :
  let n := List.length chunks `min` List.length embeddings in
  let '(vectors, metadata) := build_payload chunks embeddings in
  id <$> vectors = chunk_id_of <$> seq 0 n
  ∧ vector <$> vectors = List.firstn n embeddings
  ∧ dom metadata = list_to_set (id <$> vectors)
  ∧ size metadata = n.
Proof.
  intros n. pose proof (build_payload_dom chunks embeddings) as Hdom.
  destruct (build_payload_facts chunks embeddings) as (md & Heq & _).
  rewrite Heq in Hdom. rewrite Heq. cbn [fst snd] in Hdom.
  assert (List.length (zip chunks embeddings) = n) as Hzip by apply length_zip_with.
  assert (id <$> imap (λ j p, Entry (chunk_id_of j) p.2) (zip chunks embeddings)
          = chunk_id_of <$> seq 0 n) as Hids.
  { change (λ j p, Entry (chunk_id_of j) p.2)
      with (λ j (p : string * Search.vector), Entry (chunk_id_of (0 + j)) p.2).
    by rewrite imap_ids, Hzip. }
  split; [done|]. split; [|split; [done|]].
  - apply list_eq. intros i. rewrite list_lookup_fmap, list_lookup_imap.
    rewrite lookup_zip_with, lookup_take.
    destruct (decide (i < n)) as [Hi|Hi].
    + destruct (lookup_lt_is_Some_2 chunks i) as [chunk ->]; [lia|].
      destruct (lookup_lt_is_Some_2 embeddings i) as [emb ->]; [lia|]. done.
    + destruct (chunks !! i) as [chunk|] eqn:Hc; cbn; [|done].
      destruct (embeddings !! i) as [emb|] eqn:He; cbn; [|done].
      apply lookup_lt_Some in Hc, He. lia.
  - rewrite <- size_dom, Hdom, Hids.
    rewrite size_list_to_set; [by rewrite length_fmap, length_seq|].
    apply NoDup_fmap_2; [|apply NoDup_seq]. intros ??. apply chunk_id_of_inj.
Qed.

(** X16: Whatever the numbers of chunks and of embeddings, the loop keeps the
    first [n] of both, [n] being the smaller number: the request has the ids
    chunk_0 to chunk_(n-1) with the first [n] embeddings, and the metadata has
    exactly these ids as keys. *)
Theorem build_payload_truncates chunks embeddings :
  let n := List.length chunks `min` List.length embeddings in
  let '(vectors, metadata) := build_payload chunks embeddings in
  id <$> vectors = chunk_id_of <$> seq 0 n
  ∧ vector <$> vectors = List.firstn n embeddings
  ∧ dom metadata = list_to_set (id <$> vectors)
  ∧ size metadata = n.
Proof. apply build_payload_min. Qed.

Lemma hit_ids (hits : list (Z * nat)) :
  omap hit_id ((λ h, hit h.1 (chunk_id_of h.2)) <$> hits)
  = (λ h, chunk_id_of h.2) <$> hits.
Proof. induction hits as [|h hits IH]; [done|]. cbn. by rewrite IH. Qed.

(** X17: Ingestion, then retrieval: when the metadata file is the one an
    ingestion run wrote for [chunks] and the index answers with ids of that
    run, every hit is mapped to the text of its chunk, in the order of the
    hits; no sentinel appears. *)
Theorem ingest_then_retrieve w query v resp chunks embeddings
    (hits : list (Z * nat)) :
  List.length embeddings = List.length chunks →
  Forall (λ h, h.2 < List.length chunks) hits →
  encode w query = Return v →
  post w v = Return resp →
  status_code resp = 200%Z →
  contains "application/msgpack" (default "" (content_type_header resp)) = true →
  unpackb w (content resp)
  = Return (VList ((λ h, hit h.1 (chunk_id_of h.2)) <$> hits)) →
  metadata_file w = Some (Return (build_payload chunks embeddings).2) →
  ∃ texts,
    retrieve_chunks w query = ([Unpacked (content resp)], Return texts)
    ∧ Forall2 (λ h text, chunks !! h.2 = Some text) hits texts.
Proof.
  intros Hlen Hhits He Hp Hs Hct Hu Hm.
  destruct (build_payload_facts chunks embeddings) as (md & Heq & Hin & _).
  rewrite Heq in Hm. cbn [snd] in Hm.
  exists ((λ h, default "" (chunks !! h.2)) <$> hits). split.
  - unfold retrieve_chunks, load_metadata. rewrite He. cbn. rewrite Hp. cbn.
    rewrite Hs, Hct. cbn. rewrite Hu. cbn. rewrite Hm. cbn.
    rewrite map_items_hits.
    + do 2 f_equal. cbn [app]. rewrite hit_ids, <- list_fmap_compose.
      apply Forall_fmap_ext_1. eapply Forall_impl; [exact Hhits|].
      intros [score i] Hi. cbn in *.
      destruct (lookup_lt_is_Some_2 chunks i) as [chunk Hc]; [lia|].
      destruct (lookup_lt_is_Some_2 embeddings i) as [emb Hemb]; [lia|].
      assert (zip chunks embeddings !! i = Some (chunk, emb)) as Hz.
      { rewrite lookup_zip_with, Hc. cbn. by rewrite Hemb. }
      unfold entry_for. rewrite (Hin i _ Hz). cbn. by rewrite Hc.
    + apply Forall_fmap, Forall_forall. intros [score i] _ _. by eexists.
  - clear -Hhits. induction Hhits as [|[score i] hits Hi _ IH]; [constructor|].
    rewrite fmap_cons. constructor; [|done]. cbn in *.
    destruct (lookup_lt_is_Some_2 chunks i) as [chunk ->]; [lia|]. done.
Qed.

Lemma truthy_strip_chunks raw :
  Ingest.truthy (strip raw) = true → Ingest.split_into_chunks (strip raw) ≠ [].
Proof.
  intros Ht Hnil. apply chunks_nil_iff in Hnil.
  rewrite <- (strip_idemp raw), truthy_strip, Hnil in Ht. done.
Qed.

(** X18: Without a document, or with a document that is empty or whitespace
    only, [main] prints one line and stops: nothing is saved, nothing is sent. *)
Theorem ingest_main_nothing_to_do s :
  sample_docs s = None
  ∨ (∃ raw, sample_docs s = Some (Return raw) ∧ Ingest.all_space raw = true) →
  ∃ line, IngestMain.main s = ([Said line], Return tt).
Proof.
  unfold IngestMain.main. intros [->|(raw & -> & Hraw)]; [by eexists|].
  cbn. rewrite truthy_strip, Hraw. by eexists.
Qed.

(** X19: The insert request is never sent before the metadata is saved, and
    the ids it carries are the keys of the saved metadata: in every run, what
    is sent comes right after a matching save and its report. *)
Theorem ingest_main_saves_before_sending s vectors :
  Sent vectors ∈ (IngestMain.main s).1 →
  ∃ (metadata : metadata_map) before after,
    (IngestMain.main s).1
    = before ++ [Saved metadata;
                 Said ("Saved chunk metadata to " +:+ metadata_file_path s);
                 Said ("Sending " +:+ pretty (List.length vectors)
                       +:+ " vectors to Endee (JSON)...");
                 Sent vectors] ++ after
    ∧ dom metadata = list_to_set (id <$> vectors).
Proof.
  unfold IngestMain.main.
  destruct (sample_docs s) as [[raw|e]|]; cbn; [| |].
  2:{ intros H. by apply elem_of_nil in H. }
  2:{ intros H. apply elem_of_cons in H as [?|H]; [done|]. by apply elem_of_nil in H. }
  destruct (Ingest.truthy (strip raw)) eqn:Ht; cbn.
  2:{ intros H. apply elem_of_cons in H as [?|H]; [done|]. by apply elem_of_nil in H. }
  set (chunks := Ingest.split_into_chunks (strip raw)) in *.
  destruct (encode_batch s chunks) as [embeddings|e]; cbn.
  2:{ intros H. repeat (apply elem_of_cons in H as [?|H]; [done|]).
      by apply elem_of_nil in H. }
  pose proof (build_payload_dom chunks embeddings) as Hdom.
  destruct (build_payload chunks embeddings) as [vs md] eqn:Hbp. cbn [fst snd] in Hdom.
  destruct (write_metadata s md) as [[]|e]; cbn.
  2:{ intros H. repeat (apply elem_of_cons in H as [?|H]; [done|]).
      by apply elem_of_nil in H. }
  assert (∀ after : list effect,
    Sent vectors ∈
      Said ("Split into " +:+ pretty (List.length chunks) +:+ " chunk(s).")
      :: Said ("Loading model '" +:+ MODEL_NAME +:+ "'...")
      :: Saved md
      :: Said ("Saved chunk metadata to " +:+ metadata_file_path s)
      :: Said ("Sending " +:+ pretty (List.length vs) +:+ " vectors to Endee (JSON)...")
      :: Sent vs :: after →
    (∀ x, x ∈ after → ∃ line, x = Said line) →
    vectors = vs) as Hsent.
  { intros after H Hafter.
    repeat (apply elem_of_cons in H as [H|H];
            [try discriminate H; by injection H|]).
    destruct (Hafter _ H) as [line ?]. done. }
  destruct (post_insert s vs) as [resp|e]; cbn.
  - intros H.
    assert (vectors = vs) as ->.
    { destruct (bool_decide (status_code resp = 200%Z)); cbn in H;
        apply (Hsent _ H); intros x [->|Hx%elem_of_nil]%elem_of_cons;
        by eauto. }
    exists md, [Said ("Split into " +:+ pretty (List.length chunks) +:+ " chunk(s).");
                Said ("Loading model '" +:+ MODEL_NAME +:+ "'...")].
    destruct (bool_decide (status_code resp = 200%Z)); cbn; by eexists.
  - intros H. assert (vectors = vs) as ->.
    { apply (Hsent [] H). intros x Hx. by apply elem_of_nil in Hx. }
    exists md, [Said ("Split into " +:+ pretty (List.length chunks) +:+ " chunk(s).");
                Said ("Loading model '" +:+ MODEL_NAME +:+ "'...")], [].
    done.
Qed.

(** X20: A run on a document that is not blank, with one embedding per chunk
    and a metadata file that can be written: at least one vector is sent, with
    the ids chunk_0, chunk_1, ... of the chunks, after the metadata with these
    keys has been saved. If the request raises, [main] raises after the save;
    if it gets a response, [main] reports success for status 200 and the
    failure otherwise, and returns. *)
Theorem ingest_main_run s raw embeddings :
  sample_docs s = Some (Return raw) →
  Ingest.all_space raw = false →
  let chunks := Ingest.split_into_chunks (strip raw) in
  encode_batch s chunks = Return embeddings →
  List.length embeddings = List.length chunks →
  write_metadata s (build_payload chunks embeddings).2 = Return tt →
  let '(vectors, metadata) := build_payload chunks embeddings in
  let steps :=
    [Said ("Split into " +:+ pretty (List.length chunks) +:+ " chunk(s).");
     Said ("Loading model '" +:+ MODEL_NAME +:+ "'...");
     Saved metadata;
     Said ("Saved chunk metadata to " +:+ metadata_file_path s);
     Said ("Sending " +:+ pretty (List.length vectors) +:+ " vectors to Endee (JSON)...");
     Sent vectors] in
  vectors ≠ []
  ∧ id <$> vectors = chunk_id_of <$> seq 0 (List.length chunks)
  ∧ IngestMain.main s
    = match post_insert s vectors with
      | Raise e => (steps, Raise e)
      | Return resp =>
          (steps ++
             [Said (if bool_decide (status_code resp = 200%Z)
                    then "Success: Inserted " +:+ pretty (List.length vectors)
                         +:+ " vectors into '" +:+ INDEX_NAME +:+ "'."
                    else "Insert failed (" +:+ pretty (status_code resp) +:+ "): "
                         +:+ text resp)],
           Return tt)
      end.
Proof.
  intros Hdoc Hraw chunks Henc Hlen Hw.
  pose proof (build_payload_min chunks embeddings) as Htr.
  destruct (build_payload chunks embeddings) as [vectors metadata] eqn:Hbp.
  cbn [snd] in Hw. cbn zeta in Htr. destruct Htr as (Hids & _).
  rewrite Hlen, Nat.min_id in Hids.
  assert (chunks ≠ []) as Hne.
  { apply truthy_strip_chunks. by rewrite truthy_strip, Hraw. }
  split; [|split; [done|]].
  - intros ->. destruct chunks; [done|]. discriminate Hids.
  - unfold IngestMain.main. rewrite Hdoc. cbn.
    rewrite truthy_strip, Hraw. cbn. fold chunks. rewrite Henc. cbn.
    rewrite Hbp, Hw. cbn.
    destruct (post_insert s vectors) as [resp|e]; cbn; [|done].
    by destruct (bool_decide (status_code resp = 200%Z)).
Qed.

End ingestion_more.

(** ** These facts at concrete inputs *)

Section more_examples.
Import PyStr Search SearchMain Pipeline App Payload IngestMain Scenario Scenario2.

Lemma retrieve_chunks_bad_status_witness :
  retrieve_chunks failure_world "A?"
  = ([], Raise (Exn RuntimeError ("Search failed: " +:+ text failure_response)))
  ∧ ask failure_world "A?"
    = ([], Return (Error ("Search failed: " +:+ text failure_response) NOTE)).
Proof.
  apply (retrieve_chunks_bad_status failure_world "A?" [0; 0; 0]%Z failure_response);
    [reflexivity..|discriminate].
Defined.

Lemma retrieve_chunks_undecodable_witness :
  retrieve_chunks garbled_world "A?"
  = ([Unpacked "garbled"], Raise (Exn LibraryError "Unpack failed"))
  ∧ ask garbled_world "A?"
    = ([Unpacked "garbled"], Return (Error "Unpack failed" NOTE)).
Proof.
  apply (retrieve_chunks_undecodable garbled_world "A?" [0; 0; 0]%Z
           (msgpack_response "garbled")); reflexivity.
Defined.

Lemma retrieve_chunks_no_metadata_witness :
  let e := Exn FileNotFoundError
             ("Metadata not found: " +:+ metadata_path no_file_world) in
  retrieve_chunks no_file_world "A?" = ([Unpacked (of_codes [144])], Raise e)
  ∧ ask no_file_world "A?"
    = ([Unpacked (of_codes [144])], Return (Error (exn_msg e) NOTE)).
Proof.
  apply (retrieve_chunks_no_metadata no_file_world "A?" [0; 0; 0]%Z
           (msgpack_response (of_codes [144])) (VList [])); reflexivity.
Defined.

Lemma ask_no_results_witness :
  retrieve_chunks no_hit_world "A?" = ([Unpacked (of_codes [144])], Return [])
  ∧ ask no_hit_world "A?"
    = ([Unpacked (of_codes [144])], Return (Answer "A?" NO_CONTEXT)).
Proof.
  apply (ask_no_results no_hit_world "A?" [0; 0; 0]%Z
           (msgpack_response (of_codes [144])) (VList []) example_metadata);
    reflexivity.
Defined.

Lemma search_main_prints_witness :
  ∃ lines,
    SearchMain.main argv_console two_hits_world
    = ([Unpacked two_hits_bytes] ++ lines
         ++ [Printed ("Returned "
                      +:+ pretty (List.length ["A."; "[No text for id: chunk_7]"])
                      +:+ " chunk(s).")],
       Return tt)
    ∧ List.length lines = 3 * List.length ["A."; "[No text for id: chunk_7]"]
    ∧ ∀ k text, ["A."; "[No text for id: chunk_7]"] !! k = Some text →
        lines !! (3 * k) = Some (Printed ("--- Chunk " +:+ pretty (S k) +:+ " ---"))
        ∧ lines !! (3 * k + 1) = Some (Printed text)
        ∧ lines !! (3 * k + 2) = Some (Printed "").
Proof.
  apply (search_main_prints argv_console two_hits_world "What is Paris?");
    [reflexivity|discriminate|reflexivity].
Defined.

Lemma ingest_then_retrieve_witness :
  ∃ texts,
    retrieve_chunks ranked_world "B?" = ([Unpacked ""], Return texts)
    ∧ Forall2 (λ h text, two_chunks !! h.2 = Some text) ranked texts.
Proof.
  apply (ingest_then_retrieve ranked_world "B?" [0; 0; 0]%Z (msgpack_response "")
           two_chunks two_embeddings ranked); try reflexivity.
  repeat constructor.
Defined.

Lemma ingest_main_nothing_to_do_witness :
  ∃ line, IngestMain.main empty_site = ([Said line], Return tt).
Proof. apply ingest_main_nothing_to_do. left. reflexivity. Defined.

Lemma ingest_main_saves_before_sending_witness :
  ∃ (metadata : metadata_map) before after,
    (IngestMain.main (paris_site 500)).1
    = before ++ [Saved metadata;
                 Said ("Saved chunk metadata to "
                       +:+ metadata_file_path (paris_site 500));
                 Said ("Sending "
                       +:+ pretty (List.length [Entry "chunk_0" [0; 0; 0]%Z])
                       +:+ " vectors to Endee (JSON)...");
                 Sent [Entry "chunk_0" [0; 0; 0]%Z]] ++ after
    ∧ dom metadata = list_to_set (id <$> [Entry "chunk_0" [0; 0; 0]%Z]).
Proof.
  apply (ingest_main_saves_before_sending (paris_site 500)).
  do 5 apply list_elem_of_further. apply list_elem_of_here.
Defined.

Lemma ingest_main_run_witness :
  let chunks := Ingest.split_into_chunks (strip PARIS) in
  let '(vectors, metadata) := build_payload chunks [[0; 0; 0]%Z] in
  let steps :=
    [Said ("Split into " +:+ pretty (List.length chunks) +:+ " chunk(s).");
     Said ("Loading model '" +:+ MODEL_NAME +:+ "'...");
     Saved metadata;
     Said ("Saved chunk metadata to " +:+ metadata_file_path (paris_site 500));
     Said ("Sending " +:+ pretty (List.length vectors) +:+ " vectors to Endee (JSON)...");
     Sent vectors] in
  vectors ≠ []
  ∧ id <$> vectors = chunk_id_of <$> seq 0 (List.length chunks)
  ∧ IngestMain.main (paris_site 500)
    = match post_insert (paris_site 500) vectors with
      | Raise e => (steps, Raise e)
      | Return resp =>
          (steps ++
             [Said (if bool_decide (status_code resp = 200%Z)
                    then "Success: Inserted " +:+ pretty (List.length vectors)
                         +:+ " vectors into '" +:+ INDEX_NAME +:+ "'."
                    else "Insert failed (" +:+ pretty (status_code resp) +:+ "): "
                         +:+ text resp)],
           Return tt)
      end.
Proof.
  apply (ingest_main_run (paris_site 500) PARIS [[0; 0; 0]%Z]); reflexivity.
Defined.

(** The insert fails with status 500: the run reports it and returns, and the
    metadata of the run has been saved. *)
Example ingest_main_failed_insert :
  (IngestMain.main (paris_site 500)).2 = Return tt
  ∧ last (IngestMain.main (paris_site 500)).1
    = Some (Said "Insert failed (500): index missing").
Proof. split; reflexivity. Qed.

End more_examples.
